(** * liblog/logd_write.c: the client-side write path of the Android logger

    A shallow embedding of [src/liblog/logd_write.c] and the properties of
    its dispatcher, record framer, tag reroute and fatal-assert path.

    The C file keeps its state in file-scope variables ([write_to_log],
    [log_fds], [g_log_status]) and talks to the kernel through [open],
    [writev], [close] and [access].  Here the globals and the kernel are the
    fields of one [state] record that every function threads explicitly;
    the kernel side answers system calls from a script of replies, so that a
    theorem quantified over scripts covers every behaviour of the transport. *)

From Stdlib Require Import ZArith Lia String Ascii Btauto.
From stdpp Require Import base list strings gmap.

Open Scope Z_scope.

(** ** Constants of the headers *)

Module Consts.

(** Modelled from the spec: [log_id_t] of <log/log.h> is not among the
    sources.  The spec names the closed set Main, Radio, Events, System in
    this order and the source sizes [log_fds] with [LOG_ID_MAX] and gives it
    four initialisers. *)
Definition LOG_ID_MAIN : Z := 0.
Definition LOG_ID_RADIO : Z := 1.
Definition LOG_ID_EVENTS : Z := 2.
Definition LOG_ID_SYSTEM : Z := 3.
Definition LOG_ID_MAX : Z := 4.

(** Modelled from the spec: the device names of <log/logger.h> are not among
    the sources; one fixed path per channel. *)
Definition LOGGER_LOG_MAIN : string := "log/main".
Definition LOGGER_LOG_RADIO : string := "log/radio".
Definition LOGGER_LOG_EVENTS : string := "log/events".
Definition LOGGER_LOG_SYSTEM : string := "log/system".


(** Modelled from the spec: the error numbers and flags of the C library
    headers (<errno.h>, <fcntl.h>, <unistd.h>) are not among the sources.
    [EINTR] is the interrupted-by-signal error, [EBADF] the bad handle
    error. *)
Definition EINTR : Z := 4.
Definition EBADF : Z := 9.
Definition O_WRONLY : Z := 1.
Definition O_CLOEXEC : Z := 524288.
Definition W_OK : Z := 2.

(** [#define LOG_BUF_SIZE 1024] *)
Definition LOG_BUF_SIZE : nat := 1024.

End Consts.
Export Consts.

(** ** Data *)

(** A C string is the [string] of its bytes before the terminator. *)
Definition NUL : string := String "000"%char EmptyString.

Definition strlen (s : string) : Z := Z.of_nat (String.length s).

(** The C string that a sequence of bytes in memory starts with: the bytes
    before the first 0. *)
Fixpoint c_str (bytes : string) : string :=
  match bytes with
  | EmptyString => EmptyString
  | String c rest =>
      if Ascii.eqb c "000" then EmptyString else String c (c_str rest)
  end.

(** The conversion of an [ssize_t] to [int]: the value modulo 2^32, read
    as a signed number of 32 bits.  It changes nothing where [ssize_t] is
    as wide as [int]. *)
Definition to_int (z : Z) : Z :=
  (z + 2147483648) mod 4294967296 - 2147483648.

(** [struct iovec]: [iov_base] holds the bytes the pointer addresses,
    [iov_len] how many of them the segment covers. *)
Record iovec := mk_iovec { iov_base : string; iov_len : Z }.

(** The bytes of a segment that a vectored write sends. *)
Definition iov_bytes (v : iovec) : string :=
  substring 0 (Z.to_nat (iov_len v)) (iov_base v).

(** The value of the function pointer [write_to_log]. *)
Inductive write_fn :=
| Fn_write_to_log_init
| Fn_write_to_log_kernel
| Fn_write_to_log_null.

(** The anonymous enum of [g_log_status]. *)
Inductive log_status := kLogUninitialized | kLogNotAvailable | kLogAvailable.

(** What the kernel answers to a system call: a non-negative value, or
    failure (return value -1) with an error number for [errno]. *)
Inductive reply := Success (v : N) | Failure (e : Z).

(** The calls the library makes to the system: the system calls, and the
    taking and releasing of [log_init_lock]. *)
Inductive event :=
| EvOpen (path : string) (flags : Z)
| EvWritev (fd : Z) (vec : list iovec)
| EvClose (fd : Z)
| EvAccess (path : string) (mode : Z)
| EvLock
| EvUnlock.

(** The globals of the file and the process's view of the kernel.
    [trace] lists the system calls made so far, the latest first;
    [open_fds] the handles that are open; [pending] the replies the kernel
    will give to the calls to come. *)
Record state := mk_state {
  write_to_log : write_fn;
  log_fds : list Z;
  g_log_status : log_status;
  errno : Z;
  open_fds : list Z;
  trace : list event;
  pending : list reply
}.

(** [static int log_fds[(int)LOG_ID_MAX] = { -1, -1, -1, -1 };]
    [write_to_log = __write_to_log_init; g_log_status = kLogUninitialized] *)
Definition initial_state (script : list reply) : state :=
  {| write_to_log := Fn_write_to_log_init;
     log_fds := [-1; -1; -1; -1];
     g_log_status := kLogUninitialized;
     errno := 0;
     open_fds := [];
     trace := [];
     pending := script |}.

Definition set_write_to_log (f : write_fn) (st : state) : state :=
  mk_state f (log_fds st) (g_log_status st) (errno st) (open_fds st)
           (trace st) (pending st).
Definition set_log_fds (l : list Z) (st : state) : state :=
  mk_state (write_to_log st) l (g_log_status st) (errno st) (open_fds st)
           (trace st) (pending st).
Definition set_g_log_status (s : log_status) (st : state) : state :=
  mk_state (write_to_log st) (log_fds st) s (errno st) (open_fds st)
           (trace st) (pending st).
Definition set_errno (e : Z) (st : state) : state :=
  mk_state (write_to_log st) (log_fds st) (g_log_status st) e (open_fds st)
           (trace st) (pending st).
Definition set_open_fds (l : list Z) (st : state) : state :=
  mk_state (write_to_log st) (log_fds st) (g_log_status st) (errno st) l
           (trace st) (pending st).
Definition set_pending (l : list reply) (st : state) : state :=
  mk_state (write_to_log st) (log_fds st) (g_log_status st) (errno st)
           (open_fds st) (trace st) l.
Definition log_event (ev : event) (st : state) : state :=
  mk_state (write_to_log st) (log_fds st) (g_log_status st) (errno st)
           (open_fds st) (ev :: trace st) (pending st).

(** ** Computations *)

(** Why a call does not come back to its caller:
    the kernel has no reply left for a system call (the call blocks);
    an array is read outside its bounds;
    [__write_to_log_init] would be entered again from its own tail call;
    [__builtin_trap] was reached. *)
Inductive halt := NoAnswer | OutOfBounds | Reentry | Trap.

Inductive result (A : Type) :=
| Ok (a : A) (st : state)
| Halt (h : halt) (st : state).
Arguments Ok {A} a st.
Arguments Halt {A} h st.

Definition state_of {A} (r : result A) : state :=
  match r with Ok _ st => st | Halt _ st => st end.

Definition value_of {A} (r : result A) : option A :=
  match r with Ok a _ => Some a | Halt _ _ => None end.

Definition M (A : Type) : Type := state -> result A.

#[global] Instance M_ret : MRet M := fun A a st => Ok a st.
#[global] Instance M_bind : MBind M := fun A B k m st =>
  match m st with
  | Ok a st' => k a st'
  | Halt h st' => Halt h st'
  end.

Definition get_state : M state := fun st => Ok st st.
Definition modify (f : state -> state) : M unit := fun st => Ok tt (f st).
Definition halt_with {A} (h : halt) : M A := fun st => Halt h st.

(** ** The transport: system calls *)

Definition next_reply : M reply := fun st =>
  match pending st with
  | [] => Halt NoAnswer st
  | r :: rest => Ok r (set_pending rest st)
  end.

(** [open(2)]: a handle, which is then open, or -1 and [errno]. *)
Definition sys_open (path : string) (flags : Z) : M Z :=
  modify (log_event (EvOpen path flags));;
  r ← next_reply;
  match r with
  | Success v =>
      modify (fun st => set_open_fds (Z.of_N v :: open_fds st) st);;
      mret (Z.of_N v)
  | Failure e => modify (set_errno e);; mret (-1)
  end.

(** [writev(2)]: the number of bytes written, or -1 and [errno]. *)
Definition sys_writev (fd : Z) (vec : list iovec) : M Z :=
  modify (log_event (EvWritev fd vec));;
  r ← next_reply;
  match r with
  | Success v => mret (Z.of_N v)
  | Failure e => modify (set_errno e);; mret (-1)
  end.

(** [close(2)]: closes an open handle; on anything else -1 and [EBADF]. *)
Definition sys_close (fd : Z) : M Z :=
  modify (log_event (EvClose fd));;
  st ← get_state;
  if bool_decide (fd ∈ open_fds st)
  then modify (set_open_fds (filter (λ x, x ≠ fd) (open_fds st)));; mret 0
  else modify (set_errno EBADF);; mret (-1).

(** [access(2)]: 0, or -1 and [errno]. *)
Definition sys_access (path : string) (mode : Z) : M Z :=
  modify (log_event (EvAccess path mode));;
  r ← next_reply;
  match r with
  | Success _ => mret 0
  | Failure e => modify (set_errno e);; mret (-1)
  end.

(** [pthread_mutex_lock(&log_init_lock)] and [pthread_mutex_unlock]
    ([HAVE_PTHREADS]).  Calls run one after the other here, so the lock is
    free whenever it is taken. *)
Definition pthread_mutex_lock : M unit := modify (log_event EvLock).
Definition pthread_mutex_unlock : M unit := modify (log_event EvUnlock).

(** The macros of the device build ([FAKE_LOG_DEVICE] unset). *)
Definition log_open (pathname : string) (flags : Z) : M Z :=
  sys_open pathname (Z.lor flags O_CLOEXEC).
Definition log_writev (filedes : Z) (vector : list iovec) : M Z :=
  sys_writev filedes vector.
Definition log_close (filedes : Z) : M Z := sys_close filedes.

(** ** Strings of the C library *)

Definition byte_val (c : ascii) : Z := Z.of_N (N_of_ascii c).

(** [strcmp]: the difference of the first bytes that differ, read as
    unsigned char; a string that ends first is followed by its 0. *)
Fixpoint strcmp (a b : string) : Z :=
  match a, b with
  | EmptyString, EmptyString => 0
  | EmptyString, String d _ => 0 - byte_val d
  | String c _, EmptyString => byte_val c
  | String c a', String d b' =>
      if Ascii.eqb c d then strcmp a' b' else byte_val c - byte_val d
  end.

(** [strncmp]: as [strcmp], on at most [n] bytes. *)
Fixpoint strncmp (a b : string) (n : nat) : Z :=
  match n with
  | O => 0
  | S n' =>
      match a, b with
      | EmptyString, EmptyString => 0
      | EmptyString, String d _ => 0 - byte_val d
      | String c _, EmptyString => byte_val c
      | String c a', String d b' =>
          if Ascii.eqb c d then strncmp a' b' n' else byte_val c - byte_val d
      end
  end.

(** [snprintf(buf, size, ...)] keeps the first [size - 1] bytes of the
    text the format expands to, and terminates them. *)
Definition snprintf (size : nat) (expansion : string) : string :=
  substring 0 (size - 1) expansion.

(** The bytes of a 32-bit integer in memory, lowest first (the byte order
    of the targets of the library). *)
Definition byte_of (z : Z) : ascii := ascii_of_N (Z.to_N (Z.land z 255)).

Definition int_bytes (v : Z) : string :=
  String (byte_of v)
    (String (byte_of (Z.shiftr v 8))
       (String (byte_of (Z.shiftr v 16))
          (String (byte_of (Z.shiftr v 24)) EmptyString))).

(** ** The dispatcher *)

(** [log_fds[i]] as an rvalue, and [log_fds[i] = v]. *)
Definition read_log_fds (i : Z) : M Z := fun st =>
  if i <? 0 then Halt OutOfBounds st
  else match log_fds st !! Z.to_nat i with
       | Some fd => Ok fd st
       | None => Halt OutOfBounds st
       end.

Definition write_log_fds (i : Z) (v : Z) : M unit :=
  modify (fun st => set_log_fds (<[Z.to_nat i := v]> (log_fds st)) st).

(** [static int __write_to_log_null(log_id_t log_fd, struct iovec *vec, size_t nr)] *)
Definition __write_to_log_null (log_fd : Z) (vec : list iovec) : M Z :=
  mret (-1).

(** [do { ret = log_writev(log_fd, vec, nr); } while (ret < 0 && errno == EINTR);]
    Every turn of the loop takes one reply of the kernel, so one turn more
    than there are replies is all the loop can make. *)
Fixpoint writev_loop (fuel : nat) (log_fd : Z) (vec : list iovec) : M Z :=
  match fuel with
  | O => halt_with NoAnswer
  | S fuel' =>
      ret ← log_writev log_fd vec;
      st ← get_state;
      if (ret <? 0) && (errno st =? EINTR)
      then writev_loop fuel' log_fd vec
      else mret ret
  end.

Definition writev_retry (log_fd : Z) (vec : list iovec) : M Z := fun st =>
  writev_loop (S (length (pending st))) log_fd vec st.

(** [static int __write_to_log_kernel(log_id_t log_id, struct iovec *vec, size_t nr)]
    The lower bound of the test is commented out in the source.  [ret] is
    an [ssize_t] and the function returns [int]. *)
Definition __write_to_log_kernel (log_id : Z) (vec : list iovec) : M Z :=
  if log_id <? LOG_ID_MAX
  then log_fd ← read_log_fds log_id;
       ret ← writev_retry log_fd vec;
       mret (to_int ret)
  else mret EBADF.

(** The statements of [__write_to_log_init] that its test
    [write_to_log == __write_to_log_init] guards. *)
Definition init_body : M unit :=
  fd ← log_open ("/dev/" +:+ LOGGER_LOG_MAIN) O_WRONLY;
  write_log_fds LOG_ID_MAIN fd;;
  fd ← log_open ("/dev/" +:+ LOGGER_LOG_RADIO) O_WRONLY;
  write_log_fds LOG_ID_RADIO fd;;
  fd ← log_open ("/dev/" +:+ LOGGER_LOG_EVENTS) O_WRONLY;
  write_log_fds LOG_ID_EVENTS fd;;
  fd ← log_open ("/dev/" +:+ LOGGER_LOG_SYSTEM) O_WRONLY;
  write_log_fds LOG_ID_SYSTEM fd;;
  modify (set_write_to_log Fn_write_to_log_kernel);;
  fd_main ← read_log_fds LOG_ID_MAIN;
  fd_radio ← read_log_fds LOG_ID_RADIO;
  fd_events ← read_log_fds LOG_ID_EVENTS;
  (if (fd_main <? 0) || (fd_radio <? 0) || (fd_events <? 0)
   then
     log_close fd_main;;
     log_close fd_radio;;
     log_close fd_events;;
     write_log_fds LOG_ID_MAIN (-1);;
     write_log_fds LOG_ID_RADIO (-1);;
     write_log_fds LOG_ID_EVENTS (-1);;
     modify (set_write_to_log Fn_write_to_log_null)
   else mret tt);;
  fd_system ← read_log_fds LOG_ID_SYSTEM;
  if fd_system <? 0
  then fd_main ← read_log_fds LOG_ID_MAIN;
       write_log_fds LOG_ID_SYSTEM fd_main
  else mret tt.

(** The guarded statements in two parts.  Lines 218 to 223 of the source:
    the four [open]s and the first store to [write_to_log]. *)
Definition init_open_devices : M unit :=
  fd ← log_open ("/dev/" +:+ LOGGER_LOG_MAIN) O_WRONLY;
  write_log_fds LOG_ID_MAIN fd;;
  fd ← log_open ("/dev/" +:+ LOGGER_LOG_RADIO) O_WRONLY;
  write_log_fds LOG_ID_RADIO fd;;
  fd ← log_open ("/dev/" +:+ LOGGER_LOG_EVENTS) O_WRONLY;
  write_log_fds LOG_ID_EVENTS fd;;
  fd ← log_open ("/dev/" +:+ LOGGER_LOG_SYSTEM) O_WRONLY;
  write_log_fds LOG_ID_SYSTEM fd;;
  modify (set_write_to_log Fn_write_to_log_kernel).

(** Lines 225 to 238: the test of the three handles with the second store
    to [write_to_log], and the fallback of the system channel. *)
Definition init_check_devices : M unit :=
  fd_main ← read_log_fds LOG_ID_MAIN;
  fd_radio ← read_log_fds LOG_ID_RADIO;
  fd_events ← read_log_fds LOG_ID_EVENTS;
  (if (fd_main <? 0) || (fd_radio <? 0) || (fd_events <? 0)
   then
     log_close fd_main;;
     log_close fd_radio;;
     log_close fd_events;;
     write_log_fds LOG_ID_MAIN (-1);;
     write_log_fds LOG_ID_RADIO (-1);;
     write_log_fds LOG_ID_EVENTS (-1);;
     modify (set_write_to_log Fn_write_to_log_null)
   else mret tt);;
  fd_system ← read_log_fds LOG_ID_SYSTEM;
  if fd_system <? 0
  then fd_main ← read_log_fds LOG_ID_MAIN;
       write_log_fds LOG_ID_SYSTEM fd_main
  else mret tt.

(** The part of [__write_to_log_init] between taking and releasing
    [log_init_lock]: the test of the pointer, and the guarded statements. *)
Definition init_locked_section : M unit :=
  st ← get_state;
  match write_to_log st with
  | Fn_write_to_log_init => init_body
  | _ => mret tt
  end.

(** [return write_to_log(log_id, vec, nr);] at the end of
    [__write_to_log_init]: a call through the pointer.  Were the pointer
    still [__write_to_log_init] the function would enter itself again;
    [init_leaves_init] below shows that this does not happen. *)
Definition tail_call_write_to_log (log_id : Z) (vec : list iovec) : M Z :=
  st ← get_state;
  match write_to_log st with
  | Fn_write_to_log_init => halt_with Reentry
  | Fn_write_to_log_kernel => __write_to_log_kernel log_id vec
  | Fn_write_to_log_null => __write_to_log_null log_id vec
  end.

(** [static int __write_to_log_init(log_id_t log_id, struct iovec *vec, size_t nr)] *)
Definition __write_to_log_init (log_id : Z) (vec : list iovec) : M Z :=
  pthread_mutex_lock;;
  init_locked_section;;
  pthread_mutex_unlock;;
  tail_call_write_to_log log_id vec.

(** [write_to_log(log_id, vec, nr)]: a call through the pointer.  [nr] is
    the length of [vec] at every call of the file. *)
Definition call_write_to_log (log_id : Z) (vec : list iovec) : M Z :=
  st ← get_state;
  match write_to_log st with
  | Fn_write_to_log_init => __write_to_log_init log_id vec
  | Fn_write_to_log_kernel => __write_to_log_kernel log_id vec
  | Fn_write_to_log_null => __write_to_log_null log_id vec
  end.

(** ** Text records *)

(** The three segments both text writers build: the first byte of [prio],
    the tag and the message, each with its terminator. *)
Definition text_vec (prio : Z) (tag msg : string) : list iovec :=
  [ mk_iovec (int_bytes prio) 1;
    mk_iovec (tag +:+ NUL) (strlen tag + 1);
    mk_iovec (msg +:+ NUL) (strlen msg + 1) ].

Definition not_null (tag : option string) : string :=
  match tag with Some t => t | None => EmptyString end.

(** The condition of the [if] of [__android_log_write]. *)
Definition radio_tag_of_write (tag : string) : bool :=
  (strcmp tag "HTC_RIL" =? 0) ||
  (strncmp tag "RIL" 3 =? 0) ||
  (strncmp tag "IMS" 3 =? 0) ||
  (strcmp tag "AT" =? 0) ||
  (strcmp tag "GSM" =? 0) ||
  (strcmp tag "STK" =? 0) ||
  (strcmp tag "CDMA" =? 0) ||
  (strcmp tag "PHONE" =? 0) ||
  (strcmp tag "SMS" =? 0) ||
  (strcmp tag "KINETO" =? 0) ||
  (strncmp tag "KIPC" 4 =? 0) ||
  (strncmp tag "Kineto" 6 =? 0) ||
  (strncmp tag "QCRIL" 5 =? 0) ||
  (strncmp tag "QC-RIL" 6 =? 0) ||
  (strncmp tag "QC-QMI" 6 =? 0) ||
  (strncmp tag "QC-ONCRPC" 9 =? 0) ||
  (strncmp tag "QC-DSI" 6 =? 0) ||
  (strcmp tag "QC-NETMGR-LIB" =? 0) ||
  (strcmp tag "QC-QDP" =? 0) ||
  (strcmp tag "Diag_Lib" =? 0).

(** The tag condition of the [if] of [__android_log_buf_write]. *)
Definition radio_tag_of_buf_write (tag : string) : bool :=
  (strcmp tag "HTC_RIL" =? 0) ||
  (strncmp tag "RIL" 3 =? 0) ||
  (strncmp tag "IMS" 3 =? 0) ||
  (strcmp tag "AT" =? 0) ||
  (strcmp tag "GSM" =? 0) ||
  (strcmp tag "STK" =? 0) ||
  (strcmp tag "CDMA" =? 0) ||
  (strcmp tag "PHONE" =? 0) ||
  (strcmp tag "SMS" =? 0) ||
  (strcmp tag "KINETO" =? 0) ||
  (strncmp tag "KIPC" 4 =? 0) ||
  (strncmp tag "Kineto" 6 =? 0) ||
  (strncmp tag "QCRIL" 5 =? 0) ||
  (strncmp tag "QC-RIL" 6 =? 0) ||
  (strncmp tag "QC-QMI" 6 =? 0) ||
  (strncmp tag "QC-ONCRPC" 9 =? 0) ||
  (strncmp tag "QC-DSI" 6 =? 0).

(** [snprintf(tmp_tag, sizeof(tmp_tag), "use-Rlog/RLOG-%s", tag)] with
    [char tmp_tag[32]]. *)
Definition tmp_tag (tag : string) : string :=
  snprintf 32 ("use-Rlog/RLOG-" +:+ tag).

(** [__android_log_write] up to its last line: the channel and the
    segments it hands to [write_to_log]. *)
Definition android_log_write_args (prio : Z) (tag : option string)
    (msg : string) : Z * list iovec :=
  let log_id := LOG_ID_MAIN in
  let tag := not_null tag in
  let '(log_id, tag) :=
    if radio_tag_of_write tag then (LOG_ID_RADIO, tmp_tag tag)
    else (log_id, tag) in
  (log_id, text_vec prio tag msg).

(** [int __android_log_write(int prio, const char *tag, const char *msg)] *)
Definition __android_log_write (prio : Z) (tag : option string)
    (msg : string) : M Z :=
  let '(log_id, vec) := android_log_write_args prio tag msg in
  call_write_to_log log_id vec.

(** [__android_log_buf_write] up to its last line. *)
Definition android_log_buf_write_args (bufID prio : Z) (tag : option string)
    (msg : string) : Z * list iovec :=
  let tag := not_null tag in
  let '(bufID, tag) :=
    if negb (bufID =? LOG_ID_RADIO) && radio_tag_of_buf_write tag
    then (LOG_ID_RADIO, tmp_tag tag)
    else (bufID, tag) in
  (bufID, text_vec prio tag msg).

(** [int __android_log_buf_write(int bufID, int prio, const char *tag, const char *msg)] *)
Definition __android_log_buf_write (bufID prio : Z) (tag : option string)
    (msg : string) : M Z :=
  let '(log_id, vec) := android_log_buf_write_args bufID prio tag msg in
  call_write_to_log log_id vec.

(** ** Event records *)

(** [int __android_log_bwrite(int32_t tag, const void *payload, size_t len)] *)
Definition __android_log_bwrite (tag : Z) (payload : string) (len : Z) : M Z :=
  call_write_to_log LOG_ID_EVENTS
    [ mk_iovec (int_bytes tag) 4; mk_iovec payload len ].

(** [int __android_log_btwrite(int32_t tag, char type, const void *payload, size_t len)] *)
Definition __android_log_btwrite (tag : Z) (type : ascii) (payload : string)
    (len : Z) : M Z :=
  call_write_to_log LOG_ID_EVENTS
    [ mk_iovec (int_bytes tag) 4;
      mk_iovec (String type EmptyString) 1;
      mk_iovec payload len ].

(** ** Device availability *)

(** [int __android_log_dev_available(void)] *)
Definition __android_log_dev_available : M Z :=
  st ← get_state;
  (match g_log_status st with
   | kLogUninitialized =>
       r ← sys_access ("/dev/" +:+ LOGGER_LOG_MAIN) W_OK;
       if r =? 0
       then modify (set_g_log_status kLogAvailable)
       else modify (set_g_log_status kLogNotAvailable)
   | _ => mret tt
   end);;
  st ← get_state;
  mret (match g_log_status st with kLogAvailable => 1 | _ => 0 end).

(** ** Fatal assertions *)


Section Format.

(** The printf family is external: [expand fmt ap] is the whole text that
    the format [fmt] yields with the arguments [ap]. *)
Variable va_list : Type.
Variable expand : string -> va_list -> string.

Definition vsnprintf (size : nat) (fmt : string) (ap : va_list) : string :=
  snprintf size (expand fmt ap).



(** [int __android_log_vprint(int prio, const char *tag, const char *fmt, va_list ap)];
    [__android_log_print] is the same function with its arguments gathered.
    The format may put a 0 byte into [buf]; the writer is handed the C
    string that [buf] starts with. *)
Definition __android_log_vprint (prio : Z) (tag : option string)
    (fmt : string) (ap : va_list) : M Z :=
  __android_log_write prio tag (c_str (vsnprintf LOG_BUF_SIZE fmt ap)).

(** [int __android_log_buf_print(int bufID, int prio, const char *tag, const char *fmt, ...)] *)
Definition __android_log_buf_print (bufID prio : Z) (tag : option string)
    (fmt : string) (ap : va_list) : M Z :=
  __android_log_buf_write bufID prio tag
    (c_str (vsnprintf LOG_BUF_SIZE fmt ap)).

End Format.

(** ** Sequences of calls *)

(** The calls a process makes into the library.  [Stale_write_to_log_init]
    is a caller that read [write_to_log] while it still was
    [__write_to_log_init] and enters that function only now, whatever the
    pointer has become. *)
Inductive api_call :=
| Android_log_write (prio : Z) (tag : option string) (msg : string)
| Android_log_buf_write (bufID prio : Z) (tag : option string) (msg : string)
| Android_log_bwrite (tag : Z) (payload : string) (len : Z)
| Android_log_btwrite (tag : Z) (type : ascii) (payload : string) (len : Z)
| Android_log_dev_available
| Stale_write_to_log_init (log_id : Z) (vec : list iovec).

Definition exec (c : api_call) : M Z :=
  match c with
  | Android_log_write prio tag msg => __android_log_write prio tag msg
  | Android_log_buf_write bufID prio tag msg =>
      __android_log_buf_write bufID prio tag msg
  | Android_log_bwrite tag payload len => __android_log_bwrite tag payload len
  | Android_log_btwrite tag type payload len =>
      __android_log_btwrite tag type payload len
  | Android_log_dev_available => __android_log_dev_available
  | Stale_write_to_log_init log_id vec => __write_to_log_init log_id vec
  end.

(** The calls of a list one after the other, up to one that does not come
    back. *)
Fixpoint run (cs : list api_call) : M (list Z) :=
  match cs with
  | [] => mret []
  | c :: cs' => r ← exec c; rs ← run cs'; mret (r :: rs)
  end.

(** * Assertions and observations *)

Definition is_init_open (ev : event) : bool :=
  match ev with
  | EvOpen path _ => String.eqb path ("/dev/" +:+ LOGGER_LOG_MAIN)
  | _ => false
  end.

(** How many times the initialisation was started: it opens the main
    device first, and nothing else opens it. *)
Fixpoint init_runs (tr : list event) : nat :=
  match tr with
  | [] => O
  | ev :: older => ((if is_init_open ev then 1 else 0) + init_runs older)%nat
  end.

(** Whether [log_init_lock] is held after the calls of a trace. *)
Fixpoint lock_held (tr : list event) : bool :=
  match tr with
  | [] => false
  | EvLock :: _ => true
  | EvUnlock :: _ => false
  | _ :: older => lock_held older
  end.

(** Every [open] of a trace was made with [log_init_lock] held. *)
Fixpoint opens_under_lock (tr : list event) : bool :=
  match tr with
  | [] => true
  | EvOpen _ _ :: older => lock_held older && opens_under_lock older
  | _ :: older => opens_under_lock older
  end.

(** From a state in [P], [m] comes back with a value and state in [Q], or
    stops in a state in [E]. *)
Definition triple {A} (P : state → Prop) (m : M A) (Q : A → state → Prop)
    (E : state → Prop) : Prop :=
  ∀ st, P st →
    match m st with
    | Ok a st' => Q a st'
    | Halt _ st' => E st'
    end.

(** An assertion [I] that [m] keeps when it comes back, with [E] holding
    where it stops. *)
Definition keeps (I E : state → Prop) {A} (m : M A) : Prop :=
  triple I m (λ _, I) E.

(** Assertions that look at the globals and the trace only, and there at
    nothing but [open]s and the lock: the transport keeps them, whatever it
    answers. *)
Record transport_blind (I : state → Prop) : Prop := {
  blind_errno : ∀ e st, I st → I (set_errno e st);
  blind_pending : ∀ l st, I st → I (set_pending l st);
  blind_open_fds : ∀ l st, I st → I (set_open_fds l st);
  blind_writev : ∀ fd vec st, I st → I (log_event (EvWritev fd vec) st);
  blind_close : ∀ fd st, I st → I (log_event (EvClose fd) st);
  blind_access : ∀ p mode st, I st → I (log_event (EvAccess p mode) st)
}.

(** The pointer is [f] and the registry holds [l]. *)
Definition settled (f : write_fn) (l : list Z) (st : state) : Prop :=
  write_to_log st = f ∧ log_fds st = l.

Definition runs_within (n : nat) (st : state) : Prop :=
  (init_runs (trace st) ≤ n)%nat.

(** A state whose pointer is still [__write_to_log_init] has one start of
    the initialisation to come. *)
Definition starts_within (n : nat) (st : state) : Prop :=
  (init_runs (trace st) +
   match write_to_log st with Fn_write_to_log_init => 1 | _ => 0 end ≤ n)%nat.

Definition started_within (n : nat) (st : state) : Prop :=
  runs_within n st ∧ write_to_log st ≠ Fn_write_to_log_init.

Definition lock_free (st : state) : Prop :=
  opens_under_lock (trace st) = true ∧ lock_held (trace st) = false.

Definition lock_taken (st : state) : Prop :=
  opens_under_lock (trace st) = true ∧ lock_held (trace st) = true.

Definition opens_locked (st : state) : Prop :=
  opens_under_lock (trace st) = true.

Definition C1_script : list reply :=
  [Success 3; Success 4; Success 5; Failure 2; Success 9; Success 9]%N.
Definition C1_before : list api_call :=
  [Android_log_write 4 (Some "X") "hello"].
Definition C1_after : list api_call :=
  [Stale_write_to_log_init 0 []; Android_log_write 4 (Some "Y") "again"].

(** [m] leaves the pointer as it is wherever it is no longer
    [__write_to_log_init]. *)
Definition never_changed_again {A} (m : M A) : Prop :=
  ∀ st a st',
    write_to_log st ≠ Fn_write_to_log_init →
    m st = Ok a st' → write_to_log st' = write_to_log st.

(** An initialisation whose first [open] fails, and the state it is in
    between lines 223 and 225 of the source. *)
Definition C1_failing_script : list reply :=
  [Failure 2; Success 4; Success 5; Success 6; Success 9]%N.

Definition C1_half_way : state :=
  state_of (init_open_devices (initial_state C1_failing_script)).

(** What a reply makes a system call return. *)
Definition returned (r : reply) : Z :=
  match r with Success v => Z.of_N v | Failure _ => -1 end.

(** [errno] after a call that got the reply [r]. *)
Definition errno_after (r : reply) (before : Z) : Z :=
  match r with Success _ => before | Failure e => e end.

(** The state after [writev] on [fd] was interrupted [n] times and then
    got the reply [r], with [rest] the replies still to come. *)
Definition after_writes (fd : Z) (vec : list iovec) (n : nat) (r : reply)
    (rest : list reply) (st : state) : state :=
  mk_state (write_to_log st) (log_fds st) (g_log_status st)
    (errno_after r (match n with O => errno st | S _ => EINTR end))
    (open_fds st)
    (repeat (EvWritev fd vec) (S n) ++ trace st)
    rest.

Definition C8_state : state :=
  mk_state Fn_write_to_log_kernel [3; 4; 5; 6] kLogUninitialized 0
    [3; 4; 5; 6] []
    [Failure EINTR; Failure EINTR; Success 9%N; Failure EBADF].

Definition C4_script : list reply :=
  [Success 3; Success 4; Success 5; Failure 2; Success 9; Success 7]%N.

Definition C3_live_state : state :=
  state_of (__write_to_log_init LOG_ID_MAIN []
              (initial_state [Success 3; Success 4; Success 5; Success 6;
                              Success 0]%N)).

Definition C3_null_state : state :=
  state_of (__write_to_log_init LOG_ID_MAIN []
              (initial_state [Failure 2; Failure 2; Failure 2; Failure 2])).

Definition C2_script : list reply :=
  [Failure 2; Success 4; Success 5; Success 6]%N.

Definition status_is (s : log_status) (st : state) : Prop :=
  g_log_status st = s.

Definition available (s : log_status) : Z :=
  match s with kLogAvailable => 1 | _ => 0 end.

Definition C9_state : state :=
  initial_state [Success 0; Success 3; Success 4; Success 5; Success 6;
                 Success 9; Failure 13]%N.

Definition C9_calls : list api_call :=
  [Android_log_write 4 (Some "X") "hello"; Android_log_dev_available].



(** * Further definitions *)

(** ** The lists of radio tags *)

(** A C string has no byte 0 before its terminator. *)
Fixpoint c_string (s : string) : bool :=
  match s with
  | EmptyString => true
  | String c s' => negb (Ascii.eqb c "000") && c_string s'
  end.

(** The names that the conditions of both text writers compare with
    [strcmp], in the order of the source. *)
Definition radio_names : list string :=
  ["HTC_RIL"; "AT"; "GSM"; "STK"; "CDMA"; "PHONE"; "SMS"; "KINETO"].

(** The prefixes that both conditions compare with [strncmp]. *)
Definition radio_prefixes : list string :=
  ["RIL"; "IMS"; "KIPC"; "Kineto"; "QCRIL"; "QC-RIL"; "QC-QMI"; "QC-ONCRPC";
   "QC-DSI"].

(** The names that only the condition of [__android_log_write] has. *)
Definition radio_names_of_write_only : list string :=
  ["QC-NETMGR-LIB"; "QC-QDP"; "Diag_Lib"].

(** A tag is one of [names] or starts with one of [prefixes]. *)
Definition on_lists (names prefixes : list string) (tag : string) : bool :=
  existsb (String.eqb tag) names ||
  existsb (λ p, String.prefix p tag) prefixes.

(** ** Outcomes *)

(** As [triple], with what holds where [m] stops depending on why it
    stops. *)
Definition outcome {A} (P : state → Prop) (m : M A) (Q : A → state → Prop)
    (E : halt → state → Prop) : Prop :=
  ∀ st, P st →
    match m st with
    | Ok a st' => Q a st'
    | Halt h st' => E h st'
    end.

(** [m] keeps [I] when it comes back, and stops in [E] only. *)
Definition holds (I : state → Prop) (E : halt → state → Prop) {A}
    (m : M A) : Prop :=
  outcome I m (λ _, I) E.

(** What an assertion needs for the steps that neither store to the
    pointer nor log an event to keep it: the registry keeps its four
    entries, and a system call without a reply stops in [E]. *)
Record steady (I : state → Prop) (E : halt → state → Prop) : Prop := {
  steady_no_answer : ∀ st, I st → E NoAnswer st;
  steady_in_bounds : ∀ st, I st → length (log_fds st) = 4%nat;
  steady_errno : ∀ e st, I st → I (set_errno e st);
  steady_pending : ∀ l st, I st → I (set_pending l st)
}.

(** A read of the registry outside its bounds stops in [E]. *)
Definition out_of_bounds_stops (I : state → Prop)
    (E : halt → state → Prop) : Prop :=
  ∀ st, I st → E OutOfBounds st.

(** The channel identifier that a call passes on is not negative. *)
Definition nonneg_channel (c : api_call) : Prop :=
  match c with
  | Android_log_buf_write bufID _ _ _ => 0 ≤ bufID
  | Stale_write_to_log_init log_id _ => 0 ≤ log_id
  | _ => True
  end.

Definition registry_sized (st : state) : Prop :=
  length (log_fds st) = 4%nat.

(** Every [writev] of a trace was made with [log_init_lock] free. *)
Fixpoint writes_unlocked (tr : list event) : bool :=
  match tr with
  | [] => true
  | EvWritev _ _ :: older => negb (lock_held older) && writes_unlocked older
  | _ :: older => writes_unlocked older
  end.

Definition unlocked (st : state) : Prop :=
  writes_unlocked (trace st) = true ∧ lock_held (trace st) = false ∧
  registry_sized st.

Definition locked (st : state) : Prop :=
  writes_unlocked (trace st) = true ∧ lock_held (trace st) = true ∧
  registry_sized st.

(** The [open]s and [close]s of a trace. *)
Fixpoint opens_and_closes (tr : list event) : list event :=
  match tr with
  | [] => []
  | EvOpen p f :: older => EvOpen p f :: opens_and_closes older
  | EvClose fd :: older => EvClose fd :: opens_and_closes older
  | _ :: older => opens_and_closes older
  end.

(** The pointer, the registry, the open handles and the [open]s and
    [close]s made so far are those of [st0]. *)
Definition frozen (st0 st : state) : Prop :=
  write_to_log st = write_to_log st0 ∧
  log_fds st = log_fds st0 ∧
  open_fds st = open_fds st0 ∧
  opens_and_closes (trace st) = opens_and_closes (trace st0).

Definition is_failure (r : reply) : bool :=
  match r with Failure _ => true | Success _ => false end.

(** The four [open]s of the initialisation, the latest first. *)
Definition init_opens : list event :=
  [ EvOpen ("/dev/" +:+ LOGGER_LOG_SYSTEM) (Z.lor O_WRONLY O_CLOEXEC);
    EvOpen ("/dev/" +:+ LOGGER_LOG_EVENTS) (Z.lor O_WRONLY O_CLOEXEC);
    EvOpen ("/dev/" +:+ LOGGER_LOG_RADIO) (Z.lor O_WRONLY O_CLOEXEC);
    EvOpen ("/dev/" +:+ LOGGER_LOG_MAIN) (Z.lor O_WRONLY O_CLOEXEC) ].

(** The state in which the first writer makes its own write when the main,
    radio and events devices opened as [m], [r] and [e] and the system
    device answered [r4]. *)
Definition live_state (m r e : N) (r4 : reply) (rest : list reply)
    (st : state) : state :=
  mk_state Fn_write_to_log_kernel
    [ Z.of_N m; Z.of_N r; Z.of_N e;
      match r4 with Success s => Z.of_N s | Failure _ => Z.of_N m end ]
    (g_log_status st)
    (errno_after r4 (errno st))
    (match r4 with
     | Success s => Z.of_N s :: Z.of_N e :: Z.of_N r :: Z.of_N m :: open_fds st
     | Failure _ => Z.of_N e :: Z.of_N r :: Z.of_N m :: open_fds st
     end)
    (EvUnlock :: init_opens ++ EvLock :: trace st)
    rest.

(** The pointer, the registry, the replies to come and the trace of a
    state are known; [errno] and the open handles are left open. *)
Definition known (f : write_fn) (l : list Z) (p : list reply)
    (t : list event) (st : state) : Prop :=
  write_to_log st = f ∧ log_fds st = l ∧ pending st = p ∧ trace st = t.

(** ** Reading segments back *)

(** The number that bytes in memory stand for, lowest byte first. *)
Fixpoint le_value (s : string) : Z :=
  match s with
  | EmptyString => 0
  | String c s' => byte_val c + 256 * le_value s'
  end.

(** An unsigned 32-bit pattern read as [int32_t]. *)
Definition as_int32 (u : Z) : Z :=
  if u <? 2147483648 then u else u - 4294967296.

(** The bytes of the first segment of the latest system call, when that
    call is a [writev]. *)
Definition first_segment (tr : list event) : option string :=
  match tr with
  | EvWritev _ (seg :: _) :: _ => Some (iov_bytes seg)
  | _ => None
  end.

Definition events_state : state :=
  state_of (__write_to_log_init LOG_ID_MAIN []
              (initial_state [Success 3; Success 4; Success 5; Success 6;
                              Success 0; Success 11]%N)).

(** ** Loggability ([MOTOROLA_LOG] with [HAVE_LIBC_SYSTEM_PROPERTIES]) *)

(** [#define LOGGING_PREFIX "log.tag."] and
    [#define LOGGING_DEFAULT "log.tag.DEFAULT"] *)
Definition LOGGING_PREFIX : string := "log.tag.".
Definition LOGGING_DEFAULT : string := "log.tag.DEFAULT".

(** [__system_property_get] of the C library is external: the properties
    are a finite map from names to values; the call gives the length of
    the value and the value, and 0 and the empty string for a name that is
    not set. *)
Definition __system_property_get (props : gmap string string)
    (name : string) : Z * string :=
  match props !! name with
  | Some value => (strlen value, value)
  | None => (0, EmptyString)
  end.

Section Loggable.

(** The constants of <sys/system_properties.h> and <android/log.h> are
    not among the sources: the size of a property name, and the
    priorities. *)
Variable PROP_NAME_MAX : nat.
Variables ANDROID_LOG_VERBOSE ANDROID_LOG_DEBUG ANDROID_LOG_INFO
  ANDROID_LOG_WARN ANDROID_LOG_ERROR ANDROID_LOG_SILENT : Z.

(** [static int prio_fallback = ANDROID_LOG_INFO;] *)
Definition prio_fallback : Z := ANDROID_LOG_INFO.

(** [keybuf] after the [memcpy] of the prefix, the [strncpy] of at most
    [sizeof (keybuf) - strlen (LOGGING_PREFIX)] bytes of the tag and the
    store of the terminator into its last byte. *)
Definition keybuf_of_tag (tag : string) : string :=
  substring 0 (PROP_NAME_MAX - 1)
    (LOGGING_PREFIX +:+
     substring 0 (PROP_NAME_MAX - String.length LOGGING_PREFIX) tag).

(** The [switch (results[0])]. *)
Definition nprio_of_results (results : string) : Z :=
  match results with
  | String "E" _ => ANDROID_LOG_ERROR
  | String "W" _ => ANDROID_LOG_WARN
  | String "I" _ => ANDROID_LOG_INFO
  | String "D" _ => ANDROID_LOG_DEBUG
  | String "V" _ => ANDROID_LOG_VERBOSE
  | String "S" _ => ANDROID_LOG_SILENT
  | _ => prio_fallback
  end.

(** The threshold [nprio] that [__android_log_loggable] compares with. *)
Definition loggable_nprio (props : gmap string string)
    (tag : option string) : Z :=
  let '(n, results) :=
    match tag with
    | Some t => __system_property_get props (keybuf_of_tag t)
    | None => (0, EmptyString)
    end in
  let '(n, results) :=
    if n =? 0 then __system_property_get props LOGGING_DEFAULT
    else (n, results) in
  if n =? 0 then prio_fallback else nprio_of_results results.

(** [int __android_log_loggable(int prio, const char *tag)] *)
Definition __android_log_loggable (props : gmap string string) (prio : Z)
    (tag : option string) : Z :=
  if prio >=? loggable_nprio props tag then 1 else 0.

End Loggable.

Definition blocked_calls : list api_call :=
  [Android_log_dev_available; Android_log_buf_write 3 4 (Some "T") "m"].

Definition first_write_state : state :=
  initial_state [Success 3; Success 4; Success 5; Success 6;
                 Failure EINTR; Success 17]%N.

(** * Properties *)


(** ** Observations on traces *)

(** * Reasoning about computations *)

Section Triples.

Context {A : Type}.

Lemma triple_ret (a : A) (Q : A → state → Prop) (E : state → Prop) :
  triple (Q a) (mret a) Q E.
Proof. intros st H. exact H. Qed.

Lemma triple_halt (h : halt) (Q : A → state → Prop) (E : state → Prop) :
  triple E (halt_with h) Q E.
Proof. intros st H. exact H. Qed.

Lemma triple_conseq (P P' : state → Prop) (Q Q' : A → state → Prop)
    (E E' : state → Prop) (m : M A) :
  triple P' m Q' E' →
  (∀ st, P st → P' st) →
  (∀ a st, Q' a st → Q a st) →
  (∀ st, E' st → E st) →
  triple P m Q E.
Proof.
  intros Hm HP HQ HE st H. specialize (Hm st (HP st H)).
  destruct (m st); auto.
Qed.

Lemma triple_case (P : state → Prop) (c : Prop) (m : M A)
    (Q : A → state → Prop) (E : state → Prop) :
  (c → triple P m Q E) → triple (λ st, c ∧ P st) m Q E.
Proof. intros Hm st [Hc H]. exact (Hm Hc st H). Qed.

End Triples.

Lemma triple_bind {A B} (P : state → Prop) (R : A → state → Prop)
    (Q : B → state → Prop) (E : state → Prop) (m : M A) (k : A → M B) :
  triple P m R E →
  (∀ a, triple (R a) (k a) Q E) →
  triple P (m ≫= k) Q E.
Proof.
  intros Hm Hk st H. specialize (Hm st H).
  unfold mbind, M_bind. destruct (m st) as [a st'|h st']; [|exact Hm].
  exact (Hk a st' Hm).
Qed.

(** Reading the state hands the continuation the very state it runs in. *)
Lemma triple_get {B} (P : state → Prop) (Q : B → state → Prop)
    (E : state → Prop) (k : state → M B) :
  (∀ st0, triple (λ st, st = st0 ∧ P st) (k st0) Q E) →
  triple P (get_state ≫= k) Q E.
Proof. intros Hk st H. exact (Hk st st (conj eq_refl H)). Qed.

Lemma triple_modify (f : state → state) (Q : unit → state → Prop)
    (E : state → Prop) :
  triple (λ st, Q tt (f st)) (modify f) Q E.
Proof. intros st H. exact H. Qed.

Lemma keeps_ret {A} (I E : state → Prop) (a : A) : keeps I E (mret a).
Proof. intros st H. exact H. Qed.

Lemma keeps_bind {A B} (I E : state → Prop) (m : M A) (k : A → M B) :
  keeps I E m → (∀ a, keeps I E (k a)) → keeps I E (m ≫= k).
Proof. intros Hm Hk. eapply triple_bind; [exact Hm|exact Hk]. Qed.

Lemma keeps_get {B} (I E : state → Prop) (k : state → M B) :
  (∀ st0, keeps I E (k st0)) → keeps I E (get_state ≫= k).
Proof. intros Hk st H. exact (Hk st st H). Qed.

Lemma keeps_modify (I E : state → Prop) (f : state → state) :
  (∀ st, I st → I (f st)) → keeps I E (modify f).
Proof. intros Hf st H. exact (Hf st H). Qed.

Lemma keeps_weaken {A} (I E E' : state → Prop) (m : M A) :
  keeps I E m → (∀ st, E st → E' st) → keeps I E' m.
Proof. intros Hm HE. eapply triple_conseq; [exact Hm|auto..]. Qed.

Section Blind.

Variables I E : state → Prop.
Hypothesis blind : transport_blind I.
Hypothesis stops : ∀ st, I st → E st.

Lemma keeps_halt {A} (h : halt) : keeps I E (halt_with (A:=A) h).
Proof. intros st H. apply stops, H. Qed.

Lemma keeps_next_reply : keeps I E next_reply.
Proof.
  intros st H. unfold next_reply. destruct (pending st); [apply stops, H|].
  now apply blind_pending.
Qed.

Lemma keeps_reply (ev : event) (ok : N → Z) :
  (∀ st, I st → I (log_event ev st)) →
  keeps I E
    (modify (log_event ev);; r ← next_reply;
     match r with
     | Success v => mret (ok v)
     | Failure e => modify (set_errno e);; mret (-1)
     end).
Proof.
  intros Hev. apply keeps_bind; [now apply keeps_modify|].
  intros _. apply keeps_bind; [apply keeps_next_reply|].
  intros [v|e]; [apply keeps_ret|].
  apply keeps_bind; [|intros; apply keeps_ret].
  apply keeps_modify. intros. now apply blind_errno.
Qed.

Lemma keeps_sys_writev fd vec : keeps I E (sys_writev fd vec).
Proof. apply keeps_reply. intros. now apply blind_writev. Qed.

Lemma keeps_sys_access p mode : keeps I E (sys_access p mode).
Proof.
  apply (keeps_reply (EvAccess p mode) (λ _, 0)).
  intros. now apply blind_access.
Qed.

Lemma keeps_sys_open p flags :
  (∀ st, I st → I (log_event (EvOpen p flags) st)) →
  keeps I E (sys_open p flags).
Proof.
  intros Hev. unfold sys_open. apply keeps_bind; [now apply keeps_modify|].
  intros _. apply keeps_bind; [apply keeps_next_reply|].
  intros [v|e]; (apply keeps_bind; [|intros; apply keeps_ret]);
    apply keeps_modify; intros.
  - now apply blind_open_fds.
  - now apply blind_errno.
Qed.

Lemma keeps_sys_close fd : keeps I E (sys_close fd).
Proof.
  unfold sys_close. apply keeps_bind.
  { apply keeps_modify. intros. now apply blind_close. }
  intros _. apply keeps_get. intros st0.
  destruct (bool_decide _); (apply keeps_bind; [|intros; apply keeps_ret]);
    apply keeps_modify; intros.
  - now apply blind_open_fds.
  - now apply blind_errno.
Qed.

Lemma keeps_read_log_fds i : keeps I E (read_log_fds i).
Proof.
  intros st H. unfold read_log_fds.
  destruct (i <? 0); [apply stops, H|].
  destruct (log_fds st !! Z.to_nat i); [exact H|apply stops, H].
Qed.

Lemma keeps_writev_loop fuel fd vec : keeps I E (writev_loop fuel fd vec).
Proof.
  induction fuel as [|fuel IH]; simpl; [apply keeps_halt|].
  apply keeps_bind; [apply keeps_sys_writev|]. intros ret.
  apply keeps_get. intros st0.
  destruct (_ && _); [exact IH|apply keeps_ret].
Qed.

Lemma keeps_write_to_log_kernel log_id vec :
  keeps I E (__write_to_log_kernel log_id vec).
Proof.
  unfold __write_to_log_kernel. destruct (log_id <? LOG_ID_MAX);
    [|apply keeps_ret].
  apply keeps_bind; [apply keeps_read_log_fds|]. intros fd.
  apply keeps_bind; [|intros ret; apply keeps_ret].
  intros st H. apply keeps_writev_loop, H.
Qed.

Lemma keeps_tail_call log_id vec :
  keeps I E (tail_call_write_to_log log_id vec).
Proof.
  apply keeps_get. intros st0. destruct (write_to_log st0).
  - apply keeps_halt.
  - apply keeps_write_to_log_kernel.
  - apply keeps_ret.
Qed.

(** What is left to show of an assertion is that the initialisation and
    the device probe keep it; every call into the library then does. *)
Hypothesis keeps_init : ∀ log_id vec, keeps I E (__write_to_log_init log_id vec).
Hypothesis keeps_dev_available : keeps I E __android_log_dev_available.

Lemma keeps_call_write_to_log log_id vec :
  keeps I E (call_write_to_log log_id vec).
Proof.
  apply keeps_get. intros st0. destruct (write_to_log st0).
  - apply keeps_init.
  - apply keeps_write_to_log_kernel.
  - apply keeps_ret.
Qed.

Lemma keeps_exec c : keeps I E (exec c).
Proof.
  destruct c; simpl.
  - unfold __android_log_write. destruct (android_log_write_args _ _ _).
    apply keeps_call_write_to_log.
  - unfold __android_log_buf_write.
    destruct (android_log_buf_write_args _ _ _ _).
    apply keeps_call_write_to_log.
  - apply keeps_call_write_to_log.
  - apply keeps_call_write_to_log.
  - apply keeps_dev_available.
  - apply keeps_init.
Qed.

Lemma keeps_run cs : keeps I E (run cs).
Proof.
  induction cs as [|c cs IH]; simpl; [apply keeps_ret|].
  apply keeps_bind; [apply keeps_exec|]. intros r.
  apply keeps_bind; [exact IH|]. intros rs. apply keeps_ret.
Qed.

End Blind.

(** The device probe keeps what does not look at [g_log_status]. *)
Lemma blind_dev_available (I E : state → Prop) :
  transport_blind I →
  (∀ st, I st → E st) →
  (∀ s st, I st → I (set_g_log_status s st)) →
  keeps I E __android_log_dev_available.
Proof.
  intros Hb HE Hs. apply keeps_get. intros st0. apply keeps_bind.
  - destruct (g_log_status st0); try apply keeps_ret.
    apply keeps_bind; [now apply keeps_sys_access|]. intros r.
    destruct (r =? 0); apply keeps_modify; intros; now apply Hs.
  - intros _. apply keeps_get. intros st1. apply keeps_ret.
Qed.

(** ** The initialisation, step by step *)

Section InitBody.

(** [I0] holds when the guarded statements start, [I1] from the first
    [open] to the first store to the pointer, [I2] from there on. *)
Variables I0 I1 I2 E : state → Prop.
Hypothesis blind1 : transport_blind I1.
Hypothesis blind2 : transport_blind I2.
Hypothesis stops1 : ∀ st, I1 st → E st.
Hypothesis stops2 : ∀ st, I2 st → E st.
Hypothesis open_main : ∀ flags st,
  I0 st → I1 (log_event (EvOpen ("/dev/" +:+ LOGGER_LOG_MAIN) flags) st).
Hypothesis open_radio : ∀ flags st,
  I1 st → I1 (log_event (EvOpen ("/dev/" +:+ LOGGER_LOG_RADIO) flags) st).
Hypothesis open_events : ∀ flags st,
  I1 st → I1 (log_event (EvOpen ("/dev/" +:+ LOGGER_LOG_EVENTS) flags) st).
Hypothesis open_system : ∀ flags st,
  I1 st → I1 (log_event (EvOpen ("/dev/" +:+ LOGGER_LOG_SYSTEM) flags) st).
Hypothesis fds1 : ∀ l st, I1 st → I1 (set_log_fds l st).
Hypothesis fds2 : ∀ l st, I2 st → I2 (set_log_fds l st).
Hypothesis to_kernel : ∀ st, I1 st → I2 (set_write_to_log Fn_write_to_log_kernel st).
Hypothesis to_null : ∀ st, I2 st → I2 (set_write_to_log Fn_write_to_log_null st).

Lemma keeps_write_log_fds1 i v : keeps I1 E (write_log_fds i v).
Proof. apply keeps_modify. intros. now apply fds1. Qed.

Lemma keeps_write_log_fds2 i v : keeps I2 E (write_log_fds i v).
Proof. apply keeps_modify. intros. now apply fds2. Qed.

Lemma triple_open_main flags :
  triple I0 (sys_open ("/dev/" +:+ LOGGER_LOG_MAIN) flags) (λ _, I1) E.
Proof.
  unfold sys_open. eapply triple_bind with (R := λ _, I1).
  { intros st H. now apply open_main. }
  intros _. apply keeps_bind; [apply keeps_next_reply; auto|].
  intros [v|e]; (apply keeps_bind; [|intros; apply keeps_ret]);
    apply keeps_modify; intros.
  - now apply blind_open_fds.
  - now apply blind_errno.
Qed.

Lemma triple_init_body : triple I0 init_body (λ _, I2) E.
Proof.
  unfold init_body, log_open, log_close.
  eapply triple_bind; [apply triple_open_main|]. intros fd0.
  apply (triple_bind _ (λ _, I1)); [apply keeps_write_log_fds1|]. intros _.
  apply (triple_bind _ (λ _, I1)); [apply keeps_sys_open; auto|]. intros fd1.
  apply (triple_bind _ (λ _, I1)); [apply keeps_write_log_fds1|]. intros _.
  apply (triple_bind _ (λ _, I1)); [apply keeps_sys_open; auto|]. intros fd2.
  apply (triple_bind _ (λ _, I1)); [apply keeps_write_log_fds1|]. intros _.
  apply (triple_bind _ (λ _, I1)); [apply keeps_sys_open; auto|]. intros fd3.
  apply (triple_bind _ (λ _, I1)); [apply keeps_write_log_fds1|]. intros _.
  apply (triple_bind _ (λ _, I2)).
  { intros st H. now apply to_kernel. }
  intros _.
  apply keeps_bind; [apply keeps_read_log_fds; auto|]. intros fd_main.
  apply keeps_bind; [apply keeps_read_log_fds; auto|]. intros fd_radio.
  apply keeps_bind; [apply keeps_read_log_fds; auto|]. intros fd_events.
  apply keeps_bind.
  { destruct (_ || _); [|apply keeps_ret].
    repeat (apply keeps_bind; [apply keeps_sys_close; auto|intros _]).
    repeat (apply keeps_bind; [apply keeps_write_log_fds2|intros _]).
    apply keeps_modify. intros. now apply to_null. }
  intros _.
  apply keeps_bind; [apply keeps_read_log_fds; auto|]. intros fd_system.
  destruct (fd_system <? 0); [|apply keeps_ret].
  apply keeps_bind; [apply keeps_read_log_fds; auto|]. intros fd.
  apply keeps_write_log_fds2.
Qed.

End InitBody.

(** ** Once settled, settled for good *)

Lemma settled_blind f l : transport_blind (settled f l).
Proof. split; intros; assumption. Qed.

Lemma settled_init f l log_id vec :
  f ≠ Fn_write_to_log_init →
  keeps (settled f l) (settled f l) (__write_to_log_init log_id vec).
Proof.
  intros Hf. pose proof (settled_blind f l) as Hb.
  unfold __write_to_log_init, pthread_mutex_lock, pthread_mutex_unlock.
  apply keeps_bind; [apply keeps_modify; auto|]. intros _.
  apply keeps_bind.
  { unfold init_locked_section. apply triple_get. intros st0 st [-> H].
    destruct H as [H1 H2]. destruct (write_to_log st0) eqn:Hp;
      [congruence|split; congruence..]. }
  intros _. apply keeps_bind; [apply keeps_modify; auto|]. intros _.
  apply keeps_tail_call; auto.
Qed.

Lemma settled_run f l cs :
  f ≠ Fn_write_to_log_init → keeps (settled f l) (settled f l) (run cs).
Proof.
  intros Hf. apply keeps_run; auto using settled_blind, settled_init.
  apply blind_dev_available; auto using settled_blind.
Qed.

(** ** The initialisation starts at most once *)

Lemma runs_within_blind n : transport_blind (runs_within n).
Proof. split; intros; assumption. Qed.

Lemma starts_within_blind n : transport_blind (starts_within n).
Proof. split; intros; assumption. Qed.

Lemma started_within_blind n : transport_blind (started_within n).
Proof. split; intros; assumption. Qed.

Lemma starts_within_runs n st : starts_within n st → runs_within n st.
Proof. unfold starts_within, runs_within. lia. Qed.

Lemma started_within_starts n st : started_within n st → starts_within n st.
Proof.
  unfold started_within, starts_within, runs_within. intros [H1 H2].
  destruct (write_to_log st); [congruence|lia..].
Qed.

Lemma starts_within_init n log_id vec :
  keeps (starts_within n) (runs_within n) (__write_to_log_init log_id vec).
Proof.
  pose proof (starts_within_blind n) as Hb.
  unfold __write_to_log_init, pthread_mutex_lock, pthread_mutex_unlock.
  apply keeps_bind; [apply keeps_modify; auto|]. intros _.
  apply keeps_bind.
  { unfold init_locked_section. apply triple_get. intros st0.
    destruct (write_to_log st0) eqn:Hp.
    - eapply triple_conseq with
        (P' := λ st, starts_within n st ∧ write_to_log st = Fn_write_to_log_init)
        (E' := runs_within n).
      + apply (triple_init_body _ (runs_within n) (started_within n));
          auto using runs_within_blind, started_within_blind.
        * intros st [H _]. exact H.
        * intros flags st [H1 H2]. unfold starts_within, runs_within in *.
          rewrite H2 in H1. simpl. lia.
        * intros st H. split; [exact H|discriminate].
        * intros st [H _]. split; [exact H|discriminate].
      + intros st [Heq H]. subst st. split; [exact H|exact Hp].
      + intros u st H. now apply started_within_starts.
      + auto.
    - intros st [_ H]. exact H.
    - intros st [_ H]. exact H. }
  intros _. apply keeps_bind; [apply keeps_modify; auto|]. intros _.
  apply keeps_tail_call; auto using starts_within_runs.
Qed.

Lemma starts_within_run n cs :
  keeps (starts_within n) (runs_within n) (run cs).
Proof.
  apply keeps_run;
    auto using starts_within_blind, starts_within_runs, starts_within_init.
  apply blind_dev_available;
    auto using starts_within_blind, starts_within_runs.
Qed.

(** ** The initialisation runs under the lock *)

Lemma lock_free_blind : transport_blind lock_free.
Proof. split; intros; assumption. Qed.

Lemma lock_taken_blind : transport_blind lock_taken.
Proof. split; intros; assumption. Qed.

Lemma lock_taken_open p flags st :
  lock_taken st → lock_taken (log_event (EvOpen p flags) st).
Proof.
  intros [H1 H2]. unfold lock_taken. simpl. rewrite H1, H2. auto.
Qed.

Lemma lock_free_init log_id vec :
  keeps lock_free opens_locked (__write_to_log_init log_id vec).
Proof.
  unfold __write_to_log_init, pthread_mutex_lock, pthread_mutex_unlock.
  apply (triple_bind _ (λ _, lock_taken)).
  { intros st [H1 H2]. split; simpl; auto. }
  intros _. apply (triple_bind _ (λ _, lock_taken)).
  { unfold init_locked_section. apply triple_get. intros st0.
    eapply triple_conseq with (P' := lock_taken) (Q' := λ _, lock_taken)
                              (E' := opens_locked);
      [|tauto|auto|auto].
    destruct (write_to_log st0); try apply keeps_ret.
    apply (triple_init_body _ lock_taken lock_taken);
      auto using lock_taken_blind, lock_taken_open; now intros st []. }
  intros _. apply (triple_bind _ (λ _, lock_free)).
  { intros st [H1 H2]. split; simpl; auto. }
  intros _. apply keeps_tail_call; auto using lock_free_blind.
  now intros st [].
Qed.

Lemma lock_free_run cs : keeps lock_free opens_locked (run cs).
Proof.
  assert (Hstop : ∀ st, lock_free st → opens_locked st) by now intros st [].
  apply keeps_run; auto using lock_free_blind, lock_free_init.
  apply blind_dev_available; auto using lock_free_blind.
Qed.

(** ** Sequences of calls *)

Lemma run_app cs1 cs2 st :
  state_of (run (cs1 ++ cs2) st) =
  match run cs1 st with
  | Ok _ st1 => state_of (run cs2 st1)
  | Halt _ st1 => st1
  end.
Proof.
  revert st. induction cs1 as [|c cs1 IH]; intros st; simpl.
  - reflexivity.
  - unfold mbind, M_bind. destruct (exec c st) as [r st1|h st1]; [|reflexivity].
    specialize (IH st1). unfold mbind, M_bind in IH.
    destruct (run (cs1 ++ cs2) st1), (run cs1 st1); simpl in *; auto.
Qed.

(** ** The two stores of the initialisation *)

Lemma init_body_parts (st : state) :
  init_body st = (init_open_devices;; init_check_devices) st.
Proof.
  unfold init_body, init_open_devices, mbind, M_bind, write_log_fds, modify.
  repeat match goal with
         | |- context [log_open ?p ?f ?s] =>
             destruct (log_open p f s) as [? ?|? ?]; [|reflexivity]
         end.
  reflexivity.
Qed.

Lemma init_open_devices_kernel (st st' : state) (u : unit) :
  init_open_devices st = Ok u st' →
  write_to_log st' = Fn_write_to_log_kernel.
Proof.
  unfold init_open_devices, mbind, M_bind, write_log_fds, modify.
  repeat match goal with
         | |- context [log_open ?p ?f ?s] =>
             destruct (log_open p f s) as [? ?|? ?]; [|discriminate]
         end.
  intros H. inversion H. reflexivity.
Qed.

Lemma sys_close_globals (fd : Z) (st : state) :
  ∃ v st', sys_close fd st = Ok v st' ∧
           write_to_log st' = write_to_log st ∧ log_fds st' = log_fds st.
Proof.
  unfold sys_close, mbind, M_bind, modify, get_state. cbv beta iota.
  destruct (bool_decide _); eexists _, _;
    (split; [reflexivity|split; reflexivity]).
Qed.

Lemma init_check_devices_pointer (st st' : state) (u : unit) :
  init_check_devices st = Ok u st' →
  ∃ fd_main fd_radio fd_events,
    log_fds st !! 0%nat = Some fd_main ∧
    log_fds st !! 1%nat = Some fd_radio ∧
    log_fds st !! 2%nat = Some fd_events ∧
    write_to_log st' =
      if (fd_main <? 0) || (fd_radio <? 0) || (fd_events <? 0)
      then Fn_write_to_log_null else write_to_log st.
Proof.
  unfold init_check_devices, mbind, M_bind, read_log_fds.
  change (LOG_ID_MAIN <? 0) with false. change (LOG_ID_RADIO <? 0) with false.
  change (LOG_ID_EVENTS <? 0) with false.
  change (LOG_ID_SYSTEM <? 0) with false.
  change (Z.to_nat LOG_ID_MAIN) with 0%nat.
  change (Z.to_nat LOG_ID_RADIO) with 1%nat.
  change (Z.to_nat LOG_ID_EVENTS) with 2%nat.
  cbv beta iota.
  destruct (log_fds st !! 0%nat) as [a|] eqn:E0; [|discriminate].
  destruct (log_fds st !! 1%nat) as [b|]; [|discriminate].
  destruct (log_fds st !! 2%nat) as [c|]; [|discriminate].
  intros H. exists a, b, c. repeat (split; [reflexivity|]).
  destruct ((a <? 0) || (b <? 0) || (c <? 0)).
  - unfold log_close in H.
    destruct (sys_close_globals a st) as (v1 & s1 & E1 & Hp1 & _).
    rewrite E1 in H.
    destruct (sys_close_globals b s1) as (v2 & s2 & E2 & Hp2 & _).
    rewrite E2 in H.
    destruct (sys_close_globals c s2) as (v3 & s3 & E3 & Hp3 & _).
    rewrite E3 in H.
    unfold write_log_fds, modify in H. cbv beta iota in H.
    destruct (_ !! _) as [d|] in H; [|discriminate].
    destruct (d <? 0).
    + destruct (_ !! _) as [d'|] in H; [|discriminate].
      inversion H. reflexivity.
    + inversion H. reflexivity.
  - unfold write_log_fds, modify, mret, M_ret in H. cbv beta iota in H.
    destruct (log_fds st !! _) as [d|] in H; [|discriminate].
    destruct (d <? 0).
    + rewrite E0 in H. inversion H. reflexivity.
    + inversion H. reflexivity.
Qed.

Lemma locked_section_rechecks (st : state) :
  write_to_log st ≠ Fn_write_to_log_init →
  init_locked_section st = Ok tt st.
Proof.
  intros H. unfold init_locked_section, mbind, M_bind, get_state.
  destruct (write_to_log st); [contradiction|reflexivity|reflexivity].
Qed.

(** C1, as the claim has it, fails inside an initialisation whose first
    [open] fails.  After line 223 of the source the pointer is
    [__write_to_log_kernel], no longer [__write_to_log_init], and the
    registry holds -1, 4, 5, 6; a write through the pointer made at this
    moment, which takes no lock, goes to the kernel on the handle 4.  Lines
    225 to 238 then change the pointer again, to [__write_to_log_null]: the
    step from the live state to the null state that the claim excludes. *)
Lemma C1_pointer_changes_after_leaving_init :
  write_to_log (initial_state C1_failing_script) = Fn_write_to_log_init ∧
  init_body (initial_state C1_failing_script) =
    init_check_devices C1_half_way ∧
  write_to_log C1_half_way = Fn_write_to_log_kernel ∧
  log_fds C1_half_way = [-1; 4; 5; 6] ∧
  call_write_to_log LOG_ID_RADIO (text_vec 4 "X" "hello") C1_half_way =
    Ok 9 (mk_state Fn_write_to_log_kernel [-1; 4; 5; 6] kLogUninitialized 2
            [6; 5; 4]
            (EvWritev 4 (text_vec 4 "X" "hello") :: trace C1_half_way) []) ∧
  write_to_log (state_of (init_check_devices C1_half_way)) =
    Fn_write_to_log_null ∧
  log_fds (state_of (init_check_devices C1_half_way)) = [-1; -1; -1; 6] ∧
  ¬ never_changed_again init_check_devices.
Proof.
  assert (H : init_check_devices C1_half_way =
              Ok tt (state_of (init_check_devices C1_half_way)))
    by (vm_compute; reflexivity).
  do 7 (split; [vm_compute; reflexivity|]).
  intros Hn.
  specialize (Hn C1_half_way tt _ ltac:(vm_compute; discriminate) H).
  vm_compute in Hn. discriminate.
Qed.

(** C1, as the code has it.  The pointer [write_to_log] takes one of three
    values.  Whatever the transport answers and whatever calls a process
    makes, one after the other, stale entries into [__write_to_log_init]
    among them: the guarded initialisation starts at most once, every
    [open] is made with [log_init_lock] held, and once a call has left the
    pointer different from [__write_to_log_init], the calls after it leave
    the pointer and the registry as they are; an entry into the locked
    section with the pointer no longer [__write_to_log_init] does nothing.
    Inside the one initialisation the pointer is stored twice: its first
    part, the four [open]s, ends with the pointer at
    [__write_to_log_kernel]; its second part sets it to
    [__write_to_log_null] exactly when the main, radio or events handle is
    negative, and leaves it as it is otherwise. *)
Theorem C1_dispatcher_initialises_once (script : list reply)
    (before after : list api_call) :
  let mid := state_of (run before (initial_state script)) in
  let final := state_of (run (before ++ after) (initial_state script)) in
  (∀ f : write_fn, f = Fn_write_to_log_init ∨ f = Fn_write_to_log_kernel ∨
                   f = Fn_write_to_log_null) ∧
  (init_runs (trace final) ≤ 1)%nat ∧
  opens_under_lock (trace final) = true ∧
  (write_to_log mid ≠ Fn_write_to_log_init →
   write_to_log final = write_to_log mid ∧ log_fds final = log_fds mid) ∧
  (∀ st, write_to_log st ≠ Fn_write_to_log_init →
         init_locked_section st = Ok tt st) ∧
  (∀ st, init_body st = (init_open_devices;; init_check_devices) st) ∧
  (∀ st u st', init_open_devices st = Ok u st' →
               write_to_log st' = Fn_write_to_log_kernel) ∧
  (∀ st u st', init_check_devices st = Ok u st' →
     ∃ fd_main fd_radio fd_events,
       log_fds st !! 0%nat = Some fd_main ∧
       log_fds st !! 1%nat = Some fd_radio ∧
       log_fds st !! 2%nat = Some fd_events ∧
       write_to_log st' =
         if (fd_main <? 0) || (fd_radio <? 0) || (fd_events <? 0)
         then Fn_write_to_log_null else write_to_log st).
Proof.
  intros mid final. split; [intros []; auto|].
  split; [|split; [|split; [|split; [|split; [|split]]]]].
  - assert (H0 : starts_within 1 (initial_state script))
      by (unfold starts_within; simpl; lia).
    pose proof (starts_within_run 1 (before ++ after) _ H0) as H.
    subst final. destruct (run (before ++ after) _); simpl;
      [apply starts_within_runs|]; exact H.
  - assert (H0 : lock_free (initial_state script)) by (split; reflexivity).
    pose proof (lock_free_run (before ++ after) _ H0) as H.
    subst final. destruct (run (before ++ after) _); simpl; apply H.
  - intros Hmid. subst mid final. rewrite run_app.
    destruct (run before _) as [rs st1|h st1]; simpl in *; [|auto].
    pose proof (settled_run (write_to_log st1) (log_fds st1) after Hmid st1
                  (conj eq_refl eq_refl)) as H.
    destruct (run after st1); exact H.
  - exact locked_section_rechecks.
  - exact init_body_parts.
  - intros st u st'. apply init_open_devices_kernel.
  - intros st u st'. apply init_check_devices_pointer.
Qed.

Lemma C1_dispatcher_initialises_once_witness :
  write_to_log (state_of (run C1_before (initial_state C1_script)))
    ≠ Fn_write_to_log_init ∧
  write_to_log (state_of (run (C1_before ++ C1_after) (initial_state C1_script)))
    = write_to_log (state_of (run C1_before (initial_state C1_script))) ∧
  log_fds (state_of (run (C1_before ++ C1_after) (initial_state C1_script)))
    = log_fds (state_of (run C1_before (initial_state C1_script))).
Proof.
  assert (H : write_to_log (state_of (run C1_before (initial_state C1_script)))
              ≠ Fn_write_to_log_init) by (vm_compute; discriminate).
  split; [exact H|].
  exact (proj1 (proj2 (proj2 (proj2
           (C1_dispatcher_initialises_once C1_script C1_before C1_after))))
           H).
Defined.

(** ** The retry loop *)

Lemma of_N_not_neg (v : N) : (Z.of_N v <? 0) = false.
Proof. apply Z.ltb_ge, N2Z.is_nonneg. Qed.

Lemma not_retried (r : reply) (e0 : Z) :
  r ≠ Failure EINTR →
  (returned r <? 0) && (errno_after r e0 =? EINTR) = false.
Proof.
  intros Hr. destruct r as [v|e]; simpl.
  - now rewrite of_N_not_neg.
  - destruct (e =? EINTR) eqn:He; [|reflexivity].
    apply Z.eqb_eq in He. congruence.
Qed.

Lemma sys_writev_reply fd vec r rest st :
  pending st = r :: rest →
  sys_writev fd vec st =
  Ok (returned r)
     (mk_state (write_to_log st) (log_fds st) (g_log_status st)
        (errno_after r (errno st)) (open_fds st)
        (EvWritev fd vec :: trace st) rest).
Proof.
  intros Hp. unfold sys_writev, mbind, M_bind, modify, next_reply.
  cbn [pending log_event]. rewrite Hp. destruct r; reflexivity.
Qed.

Lemma writev_loop_retries fd vec r rest :
  r ≠ Failure EINTR →
  ∀ n fuel st,
    (n < fuel)%nat →
    pending st = repeat (Failure EINTR) n ++ r :: rest →
    writev_loop fuel fd vec st =
    Ok (returned r) (after_writes fd vec n r rest st).
Proof.
  intros Hr. induction n as [|n IH]; intros fuel st Hfuel Hp;
    (destruct fuel as [|fuel]; [lia|]); simpl in Hp;
    cbn [writev_loop]; unfold mbind at 1, M_bind at 1, log_writev;
    rewrite (sys_writev_reply _ _ _ _ _ Hp);
    unfold mbind at 1, M_bind at 1, get_state; cbn [errno].
  - rewrite (not_retried r _ Hr). reflexivity.
  - cbn [returned errno_after]. rewrite Z.eqb_refl. cbn [andb Z.ltb Z.compare].
    rewrite (IH fuel); [|lia|reflexivity].
    unfold after_writes. cbn [write_to_log log_fds g_log_status errno
                              open_fds trace pending].
    do 2 f_equal.
    + now destruct n.
    + change (repeat (EvWritev fd vec) (S (S n)))
        with (EvWritev fd vec :: repeat (EvWritev fd vec) (S n)).
      rewrite (repeat_cons (S n)), <- app_assoc. reflexivity.
Qed.

Lemma to_int_fits (z : Z) :
  -2147483648 ≤ z ≤ 2147483647 → to_int z = z.
Proof.
  intros Hz. unfold to_int.
  rewrite Z.mod_small by lia. lia.
Qed.

Lemma returned_at_least (r : reply) : -1 ≤ returned r.
Proof. destruct r; simpl; [pose proof (N2Z.is_nonneg v)|]; lia. Qed.

Lemma kernel_write_retries (st : state) (log_id fd : Z) (vec : list iovec)
    (n : nat) (r : reply) (rest : list reply) :
  write_to_log st = Fn_write_to_log_kernel →
  0 ≤ log_id < LOG_ID_MAX →
  log_fds st !! Z.to_nat log_id = Some fd →
  pending st = repeat (Failure EINTR) n ++ r :: rest →
  r ≠ Failure EINTR →
  call_write_to_log log_id vec st =
    Ok (to_int (returned r)) (after_writes fd vec n r rest st).
Proof.
  intros Hk [Hlo Hhi] Hfd Hp Hr.
  unfold call_write_to_log, mbind, M_bind, get_state. rewrite Hk.
  unfold __write_to_log_kernel.
  apply Z.ltb_lt in Hhi. rewrite Hhi.
  unfold mbind, M_bind, read_log_fds.
  apply Z.ltb_ge in Hlo. rewrite Hlo, Hfd.
  unfold writev_retry. rewrite (writev_loop_retries fd vec r rest Hr n).
  - reflexivity.
  - rewrite Hp, length_app, repeat_length. simpl. lia.
  - exact Hp.
Qed.

(** C8.  In the live state ([write_to_log] is [__write_to_log_kernel]) a
    write to a channel [0 <= log_id < LOG_ID_MAX] calls [writev] on the
    handle the registry holds for that channel.  When the kernel answers
    [n] times with [EINTR] and then with any other reply [r], the write
    makes [n + 1] calls of [writev], all on that handle and with the
    caller's segments, and returns what the last one returned, converted
    from [ssize_t] to [int]: the byte count whenever it is at most
    [INT_MAX], or -1 with the error left in [errno].  A failure other than
    [EINTR] is the case [n = 0]: one call, no retry. *)
Theorem C8_kernel_write_retries_on_EINTR (st : state) (log_id fd : Z)
    (vec : list iovec) (n : nat) (r : reply) (rest : list reply) :
  write_to_log st = Fn_write_to_log_kernel →
  0 ≤ log_id < LOG_ID_MAX →
  log_fds st !! Z.to_nat log_id = Some fd →
  pending st = repeat (Failure EINTR) n ++ r :: rest →
  r ≠ Failure EINTR →
  call_write_to_log log_id vec st =
    Ok (to_int (returned r)) (after_writes fd vec n r rest st) ∧
  (returned r ≤ 2147483647 →
   call_write_to_log log_id vec st =
     Ok (returned r) (after_writes fd vec n r rest st)) ∧
  (∀ e, r = Failure e →
   call_write_to_log log_id vec st =
     Ok (-1) (after_writes fd vec n r rest st) ∧
   errno (after_writes fd vec n r rest st) = e) ∧
  trace (after_writes fd vec n r rest st) =
    repeat (EvWritev fd vec) (S n) ++ trace st ∧
  pending (after_writes fd vec n r rest st) = rest.
Proof.
  intros Hk Hid Hfd Hp Hr.
  pose proof (kernel_write_retries st log_id fd vec n r rest Hk Hid Hfd Hp Hr)
    as Hcall.
  split; [exact Hcall|]. split; [|split; [|split; reflexivity]].
  - intros Hmax. rewrite Hcall, to_int_fits; [reflexivity|].
    pose proof (returned_at_least r). lia.
  - intros e ->. split; [exact Hcall|reflexivity].
Qed.

Lemma C8_kernel_write_retries_on_EINTR_witness :
  call_write_to_log LOG_ID_RADIO (text_vec 4 "X" "hello") C8_state =
    Ok 9 (after_writes 4 (text_vec 4 "X" "hello") 2 (Success 9%N)
            [Failure EBADF] C8_state) ∧
  trace (after_writes 4 (text_vec 4 "X" "hello") 2 (Success 9%N)
           [Failure EBADF] C8_state) =
    repeat (EvWritev 4 (text_vec 4 "X" "hello")) 3 ++ trace C8_state ∧
  pending (after_writes 4 (text_vec 4 "X" "hello") 2 (Success 9%N)
             [Failure EBADF] C8_state) = [Failure EBADF].
Proof.
  destruct (C8_kernel_write_retries_on_EINTR C8_state LOG_ID_RADIO 4
              (text_vec 4 "X" "hello") 2 (Success 9%N) [Failure EBADF])
    as (_ & Hfits & _ & Htrace & Hpending).
  - reflexivity.
  - unfold LOG_ID_RADIO, LOG_ID_MAX. lia.
  - reflexivity.
  - reflexivity.
  - discriminate.
  - split; [apply Hfits; simpl; lia|]. split; [exact Htrace|exact Hpending].
Defined.

(** ** The initialisation when only the system device fails to open *)

Lemma init_body_system_fails (st : state) (m r e : N) (err : Z)
    (rest : list reply) :
  length (log_fds st) = 4%nat →
  pending st =
    Success m :: Success r :: Success e :: Failure err :: rest →
  init_body st =
  Ok tt
    (mk_state Fn_write_to_log_kernel
       [Z.of_N m; Z.of_N r; Z.of_N e; Z.of_N m]
       (g_log_status st) err
       (Z.of_N e :: Z.of_N r :: Z.of_N m :: open_fds st)
       (EvOpen ("/dev/" +:+ LOGGER_LOG_SYSTEM) (Z.lor O_WRONLY O_CLOEXEC)
        :: EvOpen ("/dev/" +:+ LOGGER_LOG_EVENTS) (Z.lor O_WRONLY O_CLOEXEC)
        :: EvOpen ("/dev/" +:+ LOGGER_LOG_RADIO) (Z.lor O_WRONLY O_CLOEXEC)
        :: EvOpen ("/dev/" +:+ LOGGER_LOG_MAIN) (Z.lor O_WRONLY O_CLOEXEC)
        :: trace st)
       rest).
Proof.
  intros Hlen Hp. destruct st as [f fds g en ofds tr pend].
  cbn [log_fds pending g_log_status open_fds trace] in *. subst pend.
  destruct fds as [|a [|b [|c [|d [|]]]]]; try discriminate.
  destruct m, r, e; vm_compute; reflexivity.
Qed.

Lemma keeps_state_of {A} (I : state → Prop) (m : M A) (st : state) :
  keeps I I m → I st → I (state_of (m st)).
Proof. intros H Hi. specialize (H st Hi). destruct (m st); exact H. Qed.

Lemma init_system_fails (st0 : state) (m r e : N) (err : Z)
    (rest : list reply) (log_id : Z) (vec : list iovec) :
  write_to_log st0 = Fn_write_to_log_init →
  length (log_fds st0) = 4%nat →
  pending st0 =
    Success m :: Success r :: Success e :: Failure err :: rest →
  settled Fn_write_to_log_kernel [Z.of_N m; Z.of_N r; Z.of_N e; Z.of_N m]
    (state_of (__write_to_log_init log_id vec st0)).
Proof.
  intros Hf Hlen Hp.
  pose proof (init_body_system_fails (log_event EvLock st0) m r e err rest
                Hlen Hp) as Hrun.
  assert (Hf' : write_to_log (log_event EvLock st0) = Fn_write_to_log_init)
    by exact Hf.
  unfold __write_to_log_init, pthread_mutex_lock, init_locked_section.
  unfold mbind at 1 2, M_bind at 1 2, modify at 1.
  unfold mbind at 1, M_bind at 1, get_state.
  rewrite Hf', Hrun.
  assert (Hk : keeps (settled Fn_write_to_log_kernel
                        [Z.of_N m; Z.of_N r; Z.of_N e; Z.of_N m])
                 (settled Fn_write_to_log_kernel
                        [Z.of_N m; Z.of_N r; Z.of_N e; Z.of_N m])
                 (pthread_mutex_unlock;; tail_call_write_to_log log_id vec)).
  { apply keeps_bind; [apply keeps_modify; auto|]. intros _.
    apply keeps_tail_call; auto using settled_blind. }
  cbv beta iota. apply (keeps_state_of _ _ _ Hk). split; reflexivity.
Qed.

Lemma writev_loop_trace fd vec fuel st :
  ∃ k, trace (state_of (writev_loop fuel fd vec st)) =
       repeat (EvWritev fd vec) k ++ trace st ∧
       (fuel ≠ O → 1 ≤ k)%nat.
Proof.
  revert st. induction fuel as [|fuel IH]; intros st.
  - exists O. split; [reflexivity|congruence].
  - cbn [writev_loop]. unfold mbind at 1, M_bind at 1, log_writev.
    destruct (pending st) as [|r rest] eqn:Hp.
    + exists 1%nat. unfold sys_writev, mbind, M_bind, modify, next_reply.
      cbn [pending log_event]. rewrite Hp. split; [reflexivity|lia].
    + rewrite (sys_writev_reply _ _ _ _ _ Hp).
      unfold mbind at 1, M_bind at 1, get_state.
      destruct (_ && _).
      * destruct (IH (mk_state (write_to_log st) (log_fds st)
                        (g_log_status st) (errno_after r (errno st))
                        (open_fds st) (EvWritev fd vec :: trace st) rest))
          as (k & Hk & _).
        exists (S k). split; [|lia]. rewrite Hk. cbn [trace].
        change (repeat (EvWritev fd vec) (S k))
          with (EvWritev fd vec :: repeat (EvWritev fd vec) k).
        rewrite (repeat_cons k), <- app_assoc. reflexivity.
      * exists 1%nat. split; [reflexivity|lia].
Qed.

(** C4.  When the main, radio and events devices open and the system
    device does not, the initialisation leaves the pointer at
    [__write_to_log_kernel] and the registry entry of the system channel
    equal to the handle of the main channel.  No later call changes either,
    so a write to the system channel at any later time is the write to the
    main channel: at least one [writev], and every one of them on the main
    handle. *)
Theorem C4_system_writes_go_to_main (st0 : state) (m r e : N) (err : Z)
    (rest : list reply) (log_id : Z) (vec0 : list iovec)
    (calls : list api_call) (vec : list iovec) :
  write_to_log st0 = Fn_write_to_log_init →
  length (log_fds st0) = 4%nat →
  pending st0 =
    Success m :: Success r :: Success e :: Failure err :: rest →
  let st1 := state_of (__write_to_log_init log_id vec0 st0) in
  let st2 := state_of (run calls st1) in
  write_to_log st1 = Fn_write_to_log_kernel ∧
  log_fds st1 = [Z.of_N m; Z.of_N r; Z.of_N e; Z.of_N m] ∧
  write_to_log st2 = Fn_write_to_log_kernel ∧
  log_fds st2 = log_fds st1 ∧
  call_write_to_log LOG_ID_SYSTEM vec st2 =
    call_write_to_log LOG_ID_MAIN vec st2 ∧
  ∃ k, (1 ≤ k)%nat ∧
       trace (state_of (call_write_to_log LOG_ID_SYSTEM vec st2)) =
       repeat (EvWritev (Z.of_N m) vec) k ++ trace st2.
Proof.
  intros Hf Hlen Hp st1 st2.
  pose proof (init_system_fails st0 m r e err rest log_id vec0 Hf Hlen Hp)
    as [H1 H2].
  fold st1 in H1, H2.
  assert (H3 : settled Fn_write_to_log_kernel
                 [Z.of_N m; Z.of_N r; Z.of_N e; Z.of_N m] st2).
  { pose proof (settled_run Fn_write_to_log_kernel
                  [Z.of_N m; Z.of_N r; Z.of_N e; Z.of_N m] calls
                  ltac:(discriminate) st1 (conj H1 H2)) as H.
    subst st2. destruct (run calls st1); exact H. }
  destruct H3 as [H3 H4].
  assert (Hcall : ∀ i, (i = LOG_ID_SYSTEM ∨ i = LOG_ID_MAIN) →
            call_write_to_log i vec st2 =
              (ret ← writev_retry (Z.of_N m) vec; mret (to_int ret)) st2).
  { intros i Hi. unfold call_write_to_log, mbind, M_bind, get_state.
    rewrite H3. unfold __write_to_log_kernel, mbind, M_bind, read_log_fds.
    destruct Hi as [-> | ->];
      match goal with
      | |- context [?a <? LOG_ID_MAX] =>
          change (a <? LOG_ID_MAX) with true; cbv beta iota
      end;
      rewrite H4; reflexivity. }
  repeat split; try congruence.
  - rewrite !Hcall; auto.
  - rewrite Hcall by auto. unfold writev_retry, mbind, M_bind.
    destruct (writev_loop_trace (Z.of_N m) vec (S (length (pending st2))) st2)
      as (k & Hk & Hpos).
    exists k. split; [apply Hpos; discriminate|].
    destruct (writev_loop _ _ _ _); exact Hk.
Qed.

Lemma C4_system_writes_go_to_main_witness :
  write_to_log
    (state_of (__write_to_log_init LOG_ID_MAIN (text_vec 4 "X" "hello")
                 (initial_state C4_script)))
    = Fn_write_to_log_kernel ∧
  log_fds
    (state_of (__write_to_log_init LOG_ID_MAIN (text_vec 4 "X" "hello")
                 (initial_state C4_script)))
    = [3; 4; 5; 3].
Proof.
  pose proof (C4_system_writes_go_to_main (initial_state C4_script)
                3%N 4%N 5%N 2 [Success 9%N; Success 7%N] LOG_ID_MAIN
                (text_vec 4 "X" "hello") [] []
                eq_refl eq_refl eq_refl) as H.
  split; [exact (proj1 H)|exact (proj1 (proj2 H))].
Defined.

(** ** Channel identifiers out of range *)

(** C3, as the code has it.  A channel identifier at or above [LOG_ID_MAX]
    makes a write in the live state return [EBADF] at once: the state, and
    so the trace of system calls, is as before.  In the null state every
    write returns -1 at once, whatever the channel identifier.  [EBADF]
    is not -1. *)
Theorem C3_channel_at_or_above_max (st : state) (log_id : Z)
    (vec : list iovec) :
  LOG_ID_MAX ≤ log_id →
  (write_to_log st = Fn_write_to_log_kernel →
   call_write_to_log log_id vec st = Ok EBADF st) ∧
  (write_to_log st = Fn_write_to_log_null →
   ∀ any_id, call_write_to_log any_id vec st = Ok (-1) st) ∧
  EBADF ≠ -1.
Proof.
  intros Hid. split; [|split].
  - intros Hk. unfold call_write_to_log, mbind, M_bind, get_state.
    rewrite Hk. unfold __write_to_log_kernel.
    apply Z.ltb_ge in Hid. rewrite Hid. reflexivity.
  - intros Hn any_id. unfold call_write_to_log, mbind, M_bind, get_state.
    rewrite Hn. reflexivity.
  - discriminate.
Qed.

Lemma C3_channel_at_or_above_max_witness :
  call_write_to_log 7 [] C3_live_state = Ok EBADF C3_live_state.
Proof.
  apply (C3_channel_at_or_above_max C3_live_state 7 []).
  - unfold LOG_ID_MAX. lia.
  - reflexivity.
Defined.

(** C3, as the claim has it, fails.  In the null state reached when no
    device opens, a write to the channel 4, which is out of range, and a
    write to the main channel both return -1: the two errors are one.  In
    the live state a write to the channel -1 reads the registry outside its
    bounds and returns no error. *)
Lemma C3_bad_channel_not_distinct :
  write_to_log C3_null_state = Fn_write_to_log_null ∧
  call_write_to_log 4 [] C3_null_state = Ok (-1) C3_null_state ∧
  call_write_to_log LOG_ID_MAIN [] C3_null_state = Ok (-1) C3_null_state ∧
  write_to_log C3_live_state = Fn_write_to_log_kernel ∧
  call_write_to_log (-1) [] C3_live_state = Halt OutOfBounds C3_live_state ∧
  ¬ (∀ (st : state) (bad good : Z) (vec : list iovec),
       write_to_log st = Fn_write_to_log_null →
       bad < 0 ∨ LOG_ID_MAX ≤ bad →
       0 ≤ good < LOG_ID_MAX →
       value_of (call_write_to_log bad vec st) ≠
       value_of (call_write_to_log good vec st)).
Proof.
  repeat split; try reflexivity.
  intros H.
  apply (H C3_null_state 4 LOG_ID_MAIN []); try reflexivity.
  - right. unfold LOG_ID_MAX. lia.
  - unfold LOG_ID_MAIN, LOG_ID_MAX. lia.
Qed.

(** ** A failed initialisation *)

(** C2, at the input where the code departs from it.  The main device
    fails to open, the radio, events and system devices open as the handles
    4, 5 and 6.  After the first write the dispatcher is in the null state
    and the registry entries of main, radio and events are -1, but only the
    handles 4 and 5 were closed: the handle 6 of the system device is still
    open, and still in the registry. *)
Theorem C2_failed_init_leaves_system_open :
  let st := state_of (__android_log_write 4 (Some "X") "hello"
                        (initial_state C2_script)) in
  write_to_log st = Fn_write_to_log_null ∧
  log_fds st = [-1; -1; -1; 6] ∧
  open_fds st = [6] ∧
  trace st = [EvUnlock; EvClose 5; EvClose 4; EvClose (-1);
              EvOpen "/dev/log/system" 524289;
              EvOpen "/dev/log/events" 524289;
              EvOpen "/dev/log/radio" 524289;
              EvOpen "/dev/log/main" 524289; EvLock].
Proof. vm_compute. repeat split. Qed.

(** ** The cached device probe *)

Lemma status_is_blind s : transport_blind (status_is s).
Proof. split; intros; assumption. Qed.

Lemma dev_available_probed (st : state) :
  g_log_status st ≠ kLogUninitialized →
  __android_log_dev_available st = Ok (available (g_log_status st)) st.
Proof.
  intros Hs. unfold __android_log_dev_available, mbind, M_bind, get_state.
  destruct (g_log_status st) eqn:Hg; [congruence|..]; cbn; rewrite Hg;
    reflexivity.
Qed.

Lemma dev_available_result (st st1 : state) (b : Z) :
  __android_log_dev_available st = Ok b st1 →
  g_log_status st1 ≠ kLogUninitialized ∧ b = available (g_log_status st1).
Proof.
  destruct (g_log_status st) eqn:Hg.
  - unfold __android_log_dev_available, mbind, M_bind, get_state.
    rewrite Hg. unfold sys_access, mbind, M_bind, modify, next_reply.
    cbn [pending log_event]. destruct (pending st) as [|[v|e] rest];
      [discriminate|..]; cbn; intros [= <- <-]; split; cbn; congruence.
  - rewrite dev_available_probed by congruence. intros [= <- <-].
    rewrite Hg. split; [discriminate|reflexivity].
  - rewrite dev_available_probed by congruence. intros [= <- <-].
    rewrite Hg. split; [discriminate|reflexivity].
Qed.

Lemma dev_available_first (st : state) :
  g_log_status st = kLogUninitialized →
  trace (state_of (__android_log_dev_available st)) =
  EvAccess ("/dev/" +:+ LOGGER_LOG_MAIN) W_OK :: trace st.
Proof.
  intros Hg. unfold __android_log_dev_available, mbind, M_bind, get_state.
  rewrite Hg. unfold sys_access, mbind, M_bind, modify, next_reply.
  cbn [pending log_event]. destruct (pending st) as [|[v|e] rest];
    reflexivity.
Qed.

Lemma status_is_init s log_id vec :
  keeps (status_is s) (status_is s) (__write_to_log_init log_id vec).
Proof.
  pose proof (status_is_blind s) as Hb.
  unfold __write_to_log_init, pthread_mutex_lock, pthread_mutex_unlock.
  apply keeps_bind; [apply keeps_modify; auto|]. intros _.
  apply keeps_bind.
  { unfold init_locked_section. apply keeps_get. intros st0.
    destruct (write_to_log st0); try apply keeps_ret.
    apply (triple_init_body _ (status_is s) (status_is s)); auto. }
  intros _. apply keeps_bind; [apply keeps_modify; auto|]. intros _.
  apply keeps_tail_call; auto.
Qed.

Lemma status_is_run s cs :
  s ≠ kLogUninitialized → keeps (status_is s) (status_is s) (run cs).
Proof.
  intros Hs. apply keeps_run; auto using status_is_blind, status_is_init.
  intros st H. rewrite dev_available_probed by (rewrite H; exact Hs).
  exact H.
Qed.

(** C9.  The first call of [__android_log_dev_available] probes the main
    device with one [access].  When it has returned [b], then after any
    calls into the library a further call returns [b] again and leaves the
    state as it is: no system call is made. *)
Theorem C9_dev_available_cached (st st1 : state) (b : Z)
    (calls : list api_call) :
  __android_log_dev_available st = Ok b st1 →
  let st2 := state_of (run calls st1) in
  __android_log_dev_available st2 = Ok b st2 ∧
  (g_log_status st = kLogUninitialized →
   trace st1 = EvAccess ("/dev/" +:+ LOGGER_LOG_MAIN) W_OK :: trace st).
Proof.
  intros Hfirst st2. split.
  - destruct (dev_available_result st st1 b Hfirst) as [Hs ->].
    pose proof (status_is_run (g_log_status st1) calls Hs st1 eq_refl) as H.
    assert (Hg : g_log_status st2 = g_log_status st1).
    { subst st2. destruct (run calls st1); exact H. }
    rewrite dev_available_probed by congruence. now rewrite Hg.
  - intros Hg. pose proof (dev_available_first st Hg) as H.
    now rewrite Hfirst in H.
Qed.

Lemma C9_dev_available_cached_witness :
  __android_log_dev_available
    (state_of (run C9_calls (state_of (__android_log_dev_available C9_state))))
  = Ok 1
      (state_of (run C9_calls (state_of (__android_log_dev_available C9_state)))).
Proof.
  exact (proj1 (C9_dev_available_cached C9_state
                  (state_of (__android_log_dev_available C9_state)) 1
                  C9_calls eq_refl)).
Defined.

(** ** Strings *)

Lemma length_append (a b : string) :
  String.length (a +:+ b) = (String.length a + String.length b)%nat.
Proof. induction a as [|c a IH]; simpl; [reflexivity|now rewrite IH]. Qed.

Lemma length_substring_0 (n : nat) (s : string) :
  String.length (substring 0 n s) = Nat.min n (String.length s).
Proof.
  revert s. induction n as [|n IH]; intros [|c s]; simpl; try reflexivity.
  now rewrite IH.
Qed.

Lemma substring_0_all (n : nat) (s : string) :
  (String.length s ≤ n)%nat → substring 0 n s = s.
Proof.
  revert s. induction n as [|n IH]; intros [|c s]; simpl; intros H;
    try reflexivity; try lia.
  rewrite IH by lia. reflexivity.
Qed.

(** A segment made of a string and its terminator sends just these. *)
Lemma iov_bytes_terminated (s : string) :
  iov_bytes (mk_iovec (s +:+ NUL) (strlen s + 1)) = s +:+ NUL.
Proof.
  unfold iov_bytes, strlen. cbn [iov_len iov_base].
  apply substring_0_all. rewrite length_append. simpl. lia.
Qed.

Lemma iov_bytes_prio (prio : Z) :
  iov_bytes (mk_iovec (int_bytes prio) 1) = String (byte_of prio) EmptyString.
Proof. reflexivity. Qed.

Lemma byte_val_byte_of (z : Z) : byte_val (byte_of z) = z mod 256.
Proof.
  unfold byte_val, byte_of.
  assert (Hland : Z.land z 255 = z mod 256).
  { change 255 with (Z.ones 8). rewrite Z.land_ones by lia. reflexivity. }
  rewrite Hland. pose proof (Z.mod_pos_bound z 256 ltac:(lia)) as Hb.
  rewrite N_ascii_embedding.
  - apply Z2N.id. lia.
  - apply N2Z.inj_lt. rewrite Z2N.id by lia. simpl. lia.
Qed.

Lemma tmp_tag_length (tag : string) :
  String.length (tmp_tag tag) = Nat.min 31 (14 + String.length tag).
Proof.
  unfold tmp_tag, snprintf. rewrite length_substring_0, length_append.
  reflexivity.
Qed.

(** ** The reroute of radio tags *)

(** C5.  Both text writers send the tag "RIL-foo", asked for the main
    channel, to the radio channel under the tag "use-Rlog/RLOG-RIL-foo".
    For every tag that meets the condition of a writer, the tag written is
    the first 31 bytes of "use-Rlog/RLOG-" followed by the tag: the whole
    of it when the tag has at most 17 bytes, and 31 bytes otherwise; with
    its terminator it takes at most the 32 bytes of the buffer, and the
    segment written ends with the terminator. *)
Theorem C5_radio_tag_rewritten (prio bufID : Z) (tag msg : string) :
  android_log_write_args prio (Some "RIL-foo") msg =
    (LOG_ID_RADIO, text_vec prio "use-Rlog/RLOG-RIL-foo" msg) ∧
  android_log_buf_write_args LOG_ID_MAIN prio (Some "RIL-foo") msg =
    (LOG_ID_RADIO, text_vec prio "use-Rlog/RLOG-RIL-foo" msg) ∧
  (radio_tag_of_write tag = true →
   android_log_write_args prio (Some tag) msg =
     (LOG_ID_RADIO, text_vec prio (tmp_tag tag) msg)) ∧
  (bufID ≠ LOG_ID_RADIO → radio_tag_of_buf_write tag = true →
   android_log_buf_write_args bufID prio (Some tag) msg =
     (LOG_ID_RADIO, text_vec prio (tmp_tag tag) msg)) ∧
  tmp_tag tag = substring 0 31 ("use-Rlog/RLOG-" +:+ tag) ∧
  String.length (tmp_tag tag) = Nat.min 31 (14 + String.length tag) ∧
  ((String.length tag ≤ 17)%nat → tmp_tag tag = "use-Rlog/RLOG-" +:+ tag) ∧
  strlen (tmp_tag tag) + 1 ≤ 32 ∧
  iov_bytes (mk_iovec (tmp_tag tag +:+ NUL) (strlen (tmp_tag tag) + 1)) =
    tmp_tag tag +:+ NUL.
Proof.
  split; [reflexivity|]. split; [reflexivity|]. split; [|split].
  - intros H. unfold android_log_write_args. cbn [not_null]. now rewrite H.
  - intros Hb H. unfold android_log_buf_write_args. cbn [not_null].
    rewrite H. apply Z.eqb_neq in Hb. now rewrite Hb.
  - split; [reflexivity|]. split; [apply tmp_tag_length|]. split; [|split].
    + intros H. unfold tmp_tag, snprintf. apply substring_0_all.
      rewrite length_append. simpl. lia.
    + unfold strlen. rewrite tmp_tag_length. lia.
    + apply iov_bytes_terminated.
Qed.

Lemma C5_radio_tag_rewritten_witness :
  android_log_write_args 4 (Some "QC-RIL-of-a-long-radio-daemon") "up" =
    (LOG_ID_RADIO,
     text_vec 4 "use-Rlog/RLOG-QC-RIL-of-a-long-" "up") ∧
  android_log_buf_write_args LOG_ID_SYSTEM 4 (Some "IMS") "up" =
    (LOG_ID_RADIO, text_vec 4 "use-Rlog/RLOG-IMS" "up") ∧
  tmp_tag "AT" = "use-Rlog/RLOG-AT".
Proof.
  split; [|split].
  - exact (proj1 (proj2 (proj2
             (C5_radio_tag_rewritten 4 0 "QC-RIL-of-a-long-radio-daemon" "up")))
             eq_refl).
  - apply (proj1 (proj2 (proj2 (proj2
             (C5_radio_tag_rewritten 4 LOG_ID_SYSTEM "IMS" "up"))))).
    + discriminate.
    + reflexivity.
  - apply (proj1 (proj2 (proj2 (proj2 (proj2 (proj2 (proj2
             (C5_radio_tag_rewritten 4 0 "AT" "up")))))))).
    simpl. lia.
Defined.

(** ** Framing *)

(** C6.  The text writers hand [write_to_log] three segments, in this
    order: one byte, the lowest of the priority; the tag, with its
    terminator; the message, with its terminator.  The tag is the caller's
    (the empty string for a null tag), or for a tag of the radio the
    rewritten one.  For the priority 4, the tag "X" and the message "hello"
    the lengths are 1, 2 and 6. *)
Theorem C6_text_record_three_segments (prio bufID : Z) (tag : option string)
    (msg : string) :
  let t := match tag with Some t => t | None => EmptyString end in
  let written := if radio_tag_of_write t then tmp_tag t else t in
  let written_buf :=
    if negb (bufID =? LOG_ID_RADIO) && radio_tag_of_buf_write t
    then tmp_tag t else t in
  android_log_write_args prio tag msg =
    (if radio_tag_of_write t then LOG_ID_RADIO else LOG_ID_MAIN,
     [ mk_iovec (int_bytes prio) 1;
       mk_iovec (written +:+ NUL) (strlen written + 1);
       mk_iovec (msg +:+ NUL) (strlen msg + 1) ]) ∧
  map iov_bytes (snd (android_log_write_args prio tag msg)) =
    [ String (byte_of prio) EmptyString; written +:+ NUL; msg +:+ NUL ] ∧
  map iov_len (snd (android_log_write_args prio tag msg)) =
    [ 1; Z.of_nat (String.length written) + 1;
      Z.of_nat (String.length msg) + 1 ] ∧
  byte_val (byte_of prio) = prio mod 256 ∧
  __android_log_write prio tag msg =
    call_write_to_log (fst (android_log_write_args prio tag msg))
      (snd (android_log_write_args prio tag msg)) ∧
  android_log_buf_write_args bufID prio tag msg =
    (if negb (bufID =? LOG_ID_RADIO) && radio_tag_of_buf_write t
     then LOG_ID_RADIO else bufID,
     [ mk_iovec (int_bytes prio) 1;
       mk_iovec (written_buf +:+ NUL) (strlen written_buf + 1);
       mk_iovec (msg +:+ NUL) (strlen msg + 1) ]) ∧
  map iov_bytes (snd (android_log_buf_write_args bufID prio tag msg)) =
    [ String (byte_of prio) EmptyString; written_buf +:+ NUL; msg +:+ NUL ] ∧
  __android_log_buf_write bufID prio tag msg =
    call_write_to_log (fst (android_log_buf_write_args bufID prio tag msg))
      (snd (android_log_buf_write_args bufID prio tag msg)) ∧
  android_log_write_args 4 (Some "X") "hello" =
    (LOG_ID_MAIN, [ mk_iovec (int_bytes 4) 1; mk_iovec ("X" +:+ NUL) 2;
                    mk_iovec ("hello" +:+ NUL) 6 ]) ∧
  map iov_len (snd (android_log_write_args 4 (Some "X") "hello")) = [1; 2; 6] ∧
  map iov_bytes (snd (android_log_write_args 4 (Some "X") "hello")) =
    [ String "004" EmptyString; "X" +:+ NUL; "hello" +:+ NUL ] ∧
  map iov_bytes (snd (android_log_write_args prio None msg)) =
    [ String (byte_of prio) EmptyString; NUL; msg +:+ NUL ] ∧
  android_log_write_args prio None msg =
    android_log_write_args prio (Some "") msg.
Proof.
  intros t written written_buf.
  assert (Hw : android_log_write_args prio tag msg =
               (if radio_tag_of_write t then LOG_ID_RADIO else LOG_ID_MAIN,
                text_vec prio written msg)).
  { unfold android_log_write_args. change (not_null tag) with t.
    subst written.
    destruct (radio_tag_of_write t); reflexivity. }
  assert (Hb : android_log_buf_write_args bufID prio tag msg =
               (if negb (bufID =? LOG_ID_RADIO) && radio_tag_of_buf_write t
                then LOG_ID_RADIO else bufID,
                text_vec prio written_buf msg)).
  { unfold android_log_buf_write_args. change (not_null tag) with t.
    subst written_buf.
    destruct (negb (bufID =? LOG_ID_RADIO) && radio_tag_of_buf_write t);
      reflexivity. }
  assert (Hbytes : ∀ a, map iov_bytes (text_vec prio a msg) =
            [ String (byte_of prio) EmptyString; a +:+ NUL; msg +:+ NUL ]).
  { intros a. unfold text_vec. cbn [map].
    rewrite !iov_bytes_terminated, iov_bytes_prio. reflexivity. }
  split; [exact Hw|]. split; [rewrite Hw; apply Hbytes|].
  split; [rewrite Hw; reflexivity|]. split; [apply byte_val_byte_of|].
  split.
  { unfold __android_log_write.
    destruct (android_log_write_args prio tag msg); reflexivity. }
  split; [exact Hb|]. split; [rewrite Hb; apply Hbytes|]. split.
  { unfold __android_log_buf_write.
    destruct (android_log_buf_write_args bufID prio tag msg); reflexivity. }
  split; [reflexivity|]. split; [reflexivity|]. split; [reflexivity|].
  split; [apply (Hbytes "")|reflexivity].
Qed.

(** ** The two lists of radio tags *)

(** C10.  [__android_log_write] sends each of the tags "QC-NETMGR-LIB",
    "QC-QDP" and "Diag_Lib" to the radio channel under the rewritten tag,
    whatever the priority and the message; [__android_log_buf_write], asked
    for the main channel, leaves the channel and the tag as they are. *)
Theorem C10_radio_tag_lists_differ :
  Forall (λ tag,
    ∀ (prio : Z) (msg : string),
      android_log_write_args prio (Some tag) msg =
        (LOG_ID_RADIO, text_vec prio ("use-Rlog/RLOG-" +:+ tag) msg) ∧
      __android_log_write prio (Some tag) msg =
        call_write_to_log LOG_ID_RADIO
          (text_vec prio ("use-Rlog/RLOG-" +:+ tag) msg) ∧
      android_log_buf_write_args LOG_ID_MAIN prio (Some tag) msg =
        (LOG_ID_MAIN, text_vec prio tag msg) ∧
      __android_log_buf_write LOG_ID_MAIN prio (Some tag) msg =
        call_write_to_log LOG_ID_MAIN (text_vec prio tag msg))
    ["QC-NETMGR-LIB"; "QC-QDP"; "Diag_Lib"].
Proof. repeat constructor. Qed.

(** ** The fatal assertion *)





(** * Further properties *)

(** ** [strcmp] and [strncmp] on C strings *)

Lemma byte_val_inj (c d : ascii) : byte_val c = byte_val d → c = d.
Proof.
  unfold byte_val. intros H. apply N2Z.inj in H.
  rewrite <- (ascii_N_embedding c), <- (ascii_N_embedding d). now rewrite H.
Qed.

Lemma byte_val_differ (c d : ascii) :
  Ascii.eqb c d = false → byte_val c - byte_val d ≠ 0.
Proof.
  intros H Hz. apply Ascii.eqb_neq in H. apply H, byte_val_inj. lia.
Qed.

Lemma byte_val_not_nul (d : ascii) :
  Ascii.eqb d "000" = false → 0 - byte_val d ≠ 0 ∧ byte_val d ≠ 0.
Proof.
  intros H. pose proof (byte_val_differ d "000" H) as Hd.
  change (byte_val "000") with 0 in Hd. lia.
Qed.

Lemma strcmp_eqb (a b : string) :
  c_string a = true → c_string b = true →
  (strcmp a b =? 0) = String.eqb a b.
Proof.
  revert b. induction a as [|c a IH]; intros [|d b]; cbn [c_string strcmp];
    intros Ha Hb; try reflexivity.
  - apply andb_true_iff in Hb as [Hd _]. apply negb_true_iff in Hd.
    apply Z.eqb_neq, byte_val_not_nul, Hd.
  - apply andb_true_iff in Ha as [Hc _]. apply negb_true_iff in Hc.
    apply Z.eqb_neq, byte_val_not_nul, Hc.
  - apply andb_true_iff in Ha as [_ Ha]. apply andb_true_iff in Hb as [_ Hb].
    cbn [String.eqb]. destruct (Ascii.eqb c d) eqn:Hcd.
    + now apply IH.
    + apply Z.eqb_neq, byte_val_differ, Hcd.
Qed.

Lemma strncmp_prefix (p a : string) :
  c_string p = true →
  (strncmp a p (String.length p) =? 0) = String.prefix p a.
Proof.
  revert a. induction p as [|d p IH]; intros a Hp; [now destruct a|].
  cbn [c_string] in Hp. apply andb_true_iff in Hp as [Hd Hp].
  apply negb_true_iff in Hd.
  destruct a as [|c a]; cbn [String.length strncmp String.prefix].
  - apply Z.eqb_neq, byte_val_not_nul, Hd.
  - destruct (Ascii.eqb c d) eqn:Hcd.
    + apply Ascii.eqb_eq in Hcd. subst c.
      destruct (ascii_dec d d); [|congruence]. now apply IH.
    + destruct (ascii_dec d c) as [->|_].
      * rewrite Ascii.eqb_refl in Hcd. discriminate.
      * apply Z.eqb_neq, byte_val_differ, Hcd.
Qed.

(** ** The conditions of the two text writers, read as lists *)

Ltac radio_atoms Htag :=
  repeat match goal with
  | |- context [strcmp ?t ?l =? 0] =>
      rewrite (strcmp_eqb t l Htag eq_refl)
  | |- context [strncmp ?t ?p ?n =? 0] =>
      rewrite (strncmp_prefix p t eq_refl : (strncmp t p n =? 0) = _)
  end.

(** For a tag that is a C string, the condition of
    [__android_log_buf_write] holds exactly when the tag is one of the
    eight names or starts with one of the nine prefixes, and the condition
    of [__android_log_write] exactly when in addition it may be one of the
    three further names. *)
Theorem radio_conditions_as_lists (tag : string) :
  c_string tag = true →
  radio_tag_of_buf_write tag = on_lists radio_names radio_prefixes tag ∧
  radio_tag_of_write tag =
    on_lists (radio_names ++ radio_names_of_write_only) radio_prefixes tag.
Proof.
  intros Htag. split.
  - unfold radio_tag_of_buf_write. radio_atoms Htag.
    unfold on_lists, radio_names, radio_prefixes. cbn [existsb].
    btauto.
  - unfold radio_tag_of_write. radio_atoms Htag.
    unfold on_lists, radio_names, radio_prefixes, radio_names_of_write_only.
    cbn [existsb app]. btauto.
Qed.

Lemma radio_conditions_as_lists_witness :
  radio_tag_of_buf_write "RIL-daemon" =
    on_lists radio_names radio_prefixes "RIL-daemon" ∧
  radio_tag_of_write "RIL-daemon" =
    on_lists (radio_names ++ radio_names_of_write_only) radio_prefixes
      "RIL-daemon".
Proof. exact (radio_conditions_as_lists "RIL-daemon" eq_refl). Defined.

(** On the main channel the two text writers hand [write_to_log] the same
    channel and the same segments for every tag that is a C string and not
    one of the three names that only [__android_log_write] lists; on any
    channel but the radio channel they hand it the same segments. *)
Theorem text_writers_agree (bufID prio : Z) (tag : option string)
    (msg : string) :
  c_string (not_null tag) = true →
  existsb (String.eqb (not_null tag)) radio_names_of_write_only = false →
  bufID ≠ LOG_ID_RADIO →
  android_log_buf_write_args LOG_ID_MAIN prio tag msg =
    android_log_write_args prio tag msg ∧
  snd (android_log_buf_write_args bufID prio tag msg) =
    snd (android_log_write_args prio tag msg).
Proof.
  intros Htag Hnot Hbuf.
  destruct (radio_conditions_as_lists (not_null tag) Htag) as [Hb Hw].
  assert (Heq : radio_tag_of_write (not_null tag) =
                radio_tag_of_buf_write (not_null tag)).
  { rewrite Hb, Hw. unfold on_lists. rewrite existsb_app, Hnot.
    now rewrite orb_false_r. }
  unfold android_log_buf_write_args, android_log_write_args.
  rewrite Heq. apply Z.eqb_neq in Hbuf. rewrite Hbuf.
  change (LOG_ID_MAIN =? LOG_ID_RADIO) with false. cbn [negb andb].
  destruct (radio_tag_of_buf_write (not_null tag)); split; reflexivity.
Qed.

Lemma text_writers_agree_witness :
  android_log_buf_write_args LOG_ID_MAIN 4 (Some "IMS-stack") "up" =
    android_log_write_args 4 (Some "IMS-stack") "up" ∧
  snd (android_log_buf_write_args LOG_ID_SYSTEM 4 (Some "IMS-stack") "up") =
    snd (android_log_write_args 4 (Some "IMS-stack") "up").
Proof.
  apply (text_writers_agree LOG_ID_SYSTEM 4 (Some "IMS-stack") "up");
    [reflexivity|reflexivity|discriminate].
Defined.

(** A record for the radio channel is never rerouted or renamed by
    [__android_log_buf_write]: the channel stays the radio channel and the
    tag segment is the caller's tag with its terminator, however long the
    tag and whether or not it is on the lists. *)
Theorem radio_channel_not_rerouted (prio : Z) (tag : option string)
    (msg : string) :
  android_log_buf_write_args LOG_ID_RADIO prio tag msg =
    (LOG_ID_RADIO, text_vec prio (not_null tag) msg) ∧
  __android_log_buf_write LOG_ID_RADIO prio tag msg =
    call_write_to_log LOG_ID_RADIO (text_vec prio (not_null tag) msg) ∧
  map iov_bytes (text_vec prio (not_null tag) msg) =
    [ String (byte_of prio) EmptyString; not_null tag +:+ NUL; msg +:+ NUL ].
Proof.
  split; [reflexivity|]. split; [reflexivity|].
  unfold text_vec. cbn [map].
  rewrite !iov_bytes_terminated, iov_bytes_prio. reflexivity.
Qed.


(** ** Reasoning about outcomes *)

Lemma outcome_ret {A} (a : A) (Q : A → state → Prop)
    (E : halt → state → Prop) :
  outcome (Q a) (mret a) Q E.
Proof. intros st H. exact H. Qed.

Lemma outcome_bind {A B} (P : state → Prop) (R : A → state → Prop)
    (Q : B → state → Prop) (E : halt → state → Prop) (m : M A)
    (k : A → M B) :
  outcome P m R E →
  (∀ a, outcome (R a) (k a) Q E) →
  outcome P (m ≫= k) Q E.
Proof.
  intros Hm Hk st H. specialize (Hm st H).
  unfold mbind, M_bind. destruct (m st) as [a st'|h st']; [|exact Hm].
  exact (Hk a st' Hm).
Qed.

Lemma outcome_get {B} (P : state → Prop) (Q : B → state → Prop)
    (E : halt → state → Prop) (k : state → M B) :
  (∀ st0, outcome (λ st, st = st0 ∧ P st) (k st0) Q E) →
  outcome P (get_state ≫= k) Q E.
Proof. intros Hk st H. exact (Hk st st (conj eq_refl H)). Qed.

Lemma outcome_conseq {A} (P P' : state → Prop) (Q Q' : A → state → Prop)
    (E E' : halt → state → Prop) (m : M A) :
  outcome P' m Q' E' →
  (∀ st, P st → P' st) →
  (∀ a st, Q' a st → Q a st) →
  (∀ h st, E' h st → E h st) →
  outcome P m Q E.
Proof.
  intros Hm HP HQ HE st H. specialize (Hm st (HP st H)).
  destruct (m st); auto.
Qed.

Lemma holds_ret {A} I E (a : A) : holds I E (mret a).
Proof. intros st H. exact H. Qed.

Lemma holds_bind {A B} I E (m : M A) (k : A → M B) :
  holds I E m → (∀ a, holds I E (k a)) → holds I E (m ≫= k).
Proof. intros Hm Hk. eapply outcome_bind; [exact Hm|exact Hk]. Qed.

Lemma holds_get {B} I E (k : state → M B) :
  (∀ st0, holds I E (k st0)) → holds I E (get_state ≫= k).
Proof. intros Hk st H. exact (Hk st st H). Qed.

Lemma holds_modify I E (f : state → state) :
  (∀ st, I st → I (f st)) → holds I E (modify f).
Proof. intros Hf st H. exact (Hf st H). Qed.

Lemma holds_state_of {A} (I : state → Prop) (E : halt → state → Prop)
    (J : state → Prop) (m : M A) (st : state) :
  holds I E m → (∀ st, I st → J st) → (∀ h st, E h st → J st) →
  I st → J (state_of (m st)).
Proof.
  intros H HI HE Hi. specialize (H st Hi). destruct (m st); simpl; auto.
  eapply HE, H.
Qed.

Section Steps.

Variable I : state → Prop.
Variable E : halt → state → Prop.
Hypothesis st_I : steady I E.

Lemma holds_next_reply : holds I E next_reply.
Proof.
  intros st H. unfold next_reply. destruct (pending st).
  - now apply (steady_no_answer I E).
  - now apply (steady_pending I E).
Qed.

Lemma holds_reply (ev : event) (ok : N → Z) :
  (∀ st, I st → I (log_event ev st)) →
  holds I E
    (modify (log_event ev);; r ← next_reply;
     match r with
     | Success v => mret (ok v)
     | Failure e => modify (set_errno e);; mret (-1)
     end).
Proof.
  intros Hev. apply holds_bind; [now apply holds_modify|].
  intros _. apply holds_bind; [apply holds_next_reply|].
  intros [v|e]; [apply holds_ret|].
  apply holds_bind; [|intros; apply holds_ret].
  apply holds_modify. intros. now apply (steady_errno I E).
Qed.

Lemma holds_sys_writev fd vec :
  (∀ st, I st → I (log_event (EvWritev fd vec) st)) →
  holds I E (sys_writev fd vec).
Proof. intros H. apply holds_reply, H. Qed.

Lemma holds_sys_access p mode :
  (∀ st, I st → I (log_event (EvAccess p mode) st)) →
  holds I E (sys_access p mode).
Proof. intros H. apply (holds_reply (EvAccess p mode) (λ _, 0)), H. Qed.

Lemma holds_sys_open p flags :
  (∀ st, I st → I (log_event (EvOpen p flags) st)) →
  (∀ l st, I st → I (set_open_fds l st)) →
  holds I E (sys_open p flags).
Proof.
  intros Hev Ho. unfold sys_open. apply holds_bind; [now apply holds_modify|].
  intros _. apply holds_bind; [apply holds_next_reply|].
  intros [v|e]; (apply holds_bind; [|intros; apply holds_ret]);
    apply holds_modify; intros.
  - now apply Ho.
  - now apply (steady_errno I E).
Qed.

Lemma holds_sys_close fd :
  (∀ st, I st → I (log_event (EvClose fd) st)) →
  (∀ l st, I st → I (set_open_fds l st)) →
  holds I E (sys_close fd).
Proof.
  intros Hev Ho. unfold sys_close.
  apply holds_bind; [now apply holds_modify|].
  intros _. apply holds_get. intros st0.
  destruct (bool_decide _); (apply holds_bind; [|intros; apply holds_ret]);
    apply holds_modify; intros.
  - now apply Ho.
  - now apply (steady_errno I E).
Qed.

(** A read of the registry at an index from 0 to 3 stays in bounds. *)
Lemma holds_read_log_fds i :
  0 ≤ i < LOG_ID_MAX → holds I E (read_log_fds i).
Proof.
  intros [Hlo Hhi] st H. unfold read_log_fds.
  apply Z.ltb_ge in Hlo as Hlo'. rewrite Hlo'.
  pose proof (steady_in_bounds I E st_I st H) as Hlen.
  destruct (lookup_lt_is_Some_2 (log_fds st) (Z.to_nat i)) as [fd Hfd].
  { rewrite Hlen. unfold LOG_ID_MAX in Hhi. lia. }
  rewrite Hfd. exact H.
Qed.

Hypothesis on_writev : ∀ fd vec st, I st → I (log_event (EvWritev fd vec) st).

Lemma holds_writev_loop fuel fd vec : holds I E (writev_loop fuel fd vec).
Proof.
  induction fuel as [|fuel IH]; simpl.
  - intros st H. now apply (steady_no_answer I E).
  - apply holds_bind; [apply holds_sys_writev, on_writev|]. intros ret.
    apply holds_get. intros st0.
    destruct (_ && _); [exact IH|apply holds_ret].
Qed.

Lemma holds_write_to_log_kernel log_id vec :
  0 ≤ log_id ∨ out_of_bounds_stops I E →
  holds I E (__write_to_log_kernel log_id vec).
Proof.
  intros Hid. unfold __write_to_log_kernel.
  destruct (log_id <? LOG_ID_MAX) eqn:Hmax; [|apply holds_ret].
  apply Z.ltb_lt in Hmax.
  destruct (Z_lt_le_dec log_id 0) as [Hneg|Hpos].
  - destruct Hid as [Hid|Hoob]; [lia|].
    intros st H. unfold mbind, M_bind, read_log_fds.
    apply Z.ltb_lt in Hneg. rewrite Hneg. now apply Hoob.
  - apply holds_bind; [now apply holds_read_log_fds|]. intros fd.
    apply holds_bind; [|intros ret; apply holds_ret].
    intros st H. apply holds_writev_loop, H.
Qed.

(** The tail call of the initialisation, once the pointer has left
    [__write_to_log_init]. *)
Lemma outcome_tail_call log_id vec :
  0 ≤ log_id ∨ out_of_bounds_stops I E →
  outcome (λ st, I st ∧ write_to_log st ≠ Fn_write_to_log_init)
    (tail_call_write_to_log log_id vec) (λ _, I) E.
Proof.
  intros Hid. apply outcome_get. intros st0 st [-> [H Hp]].
  destruct (write_to_log st0); [congruence| |exact H].
  now apply holds_write_to_log_kernel.
Qed.

Hypothesis holds_init : ∀ log_id vec,
  0 ≤ log_id ∨ out_of_bounds_stops I E →
  holds I E (__write_to_log_init log_id vec).
Hypothesis on_access : ∀ p mode st, I st → I (log_event (EvAccess p mode) st).
Hypothesis on_status : ∀ s st, I st → I (set_g_log_status s st).

Lemma holds_call_write_to_log log_id vec :
  0 ≤ log_id ∨ out_of_bounds_stops I E →
  holds I E (call_write_to_log log_id vec).
Proof.
  intros Hid. apply holds_get. intros st0. destruct (write_to_log st0).
  - now apply holds_init.
  - now apply holds_write_to_log_kernel.
  - apply holds_ret.
Qed.

Lemma holds_dev_available : holds I E __android_log_dev_available.
Proof.
  apply holds_get. intros st0. apply holds_bind.
  - destruct (g_log_status st0); try apply holds_ret.
    apply holds_bind; [apply holds_sys_access, on_access|]. intros r.
    destruct (r =? 0); apply holds_modify; intros; now apply on_status.
  - intros _. apply holds_get. intros st1. apply holds_ret.
Qed.

Lemma holds_exec c :
  nonneg_channel c ∨ out_of_bounds_stops I E → holds I E (exec c).
Proof.
  intros Hc. destruct c; simpl in *.
  - unfold __android_log_write, android_log_write_args.
    destruct (radio_tag_of_write _); apply holds_call_write_to_log; left;
      discriminate.
  - unfold __android_log_buf_write, android_log_buf_write_args.
    destruct (_ && _); apply holds_call_write_to_log;
      [left; discriminate|exact Hc].
  - apply holds_call_write_to_log. left. discriminate.
  - apply holds_call_write_to_log. left. discriminate.
  - apply holds_dev_available.
  - now apply holds_init.
Qed.

Lemma holds_run cs :
  Forall nonneg_channel cs ∨ out_of_bounds_stops I E → holds I E (run cs).
Proof.
  intros Hcs. induction cs as [|c cs IH]; simpl; [apply holds_ret|].
  assert (Hc : nonneg_channel c ∨ out_of_bounds_stops I E).
  { destruct Hcs as [Hcs|?]; [left; now inversion Hcs|now right]. }
  assert (Hcs' : Forall nonneg_channel cs ∨ out_of_bounds_stops I E).
  { destruct Hcs as [Hcs|?]; [left; now inversion Hcs|now right]. }
  apply holds_bind; [now apply holds_exec|]. intros r.
  apply holds_bind; [now apply IH|]. intros rs. apply holds_ret.
Qed.

End Steps.

(** ** The initialisation, with outcomes *)

Section LockedSection.

(** [L] holds while [log_init_lock] is taken. *)
Variable L : state → Prop.
Variable E : halt → state → Prop.
Hypothesis st_L : steady L E.
Hypothesis on_open : ∀ p flags st, L st → L (log_event (EvOpen p flags) st).
Hypothesis on_close : ∀ fd st, L st → L (log_event (EvClose fd) st).
Hypothesis on_open_fds : ∀ l st, L st → L (set_open_fds l st).
Hypothesis on_fds : ∀ i v st,
  L st → L (set_log_fds (<[i:=v]> (log_fds st)) st).
Hypothesis on_pointer : ∀ f st, L st → L (set_write_to_log f st).

Let L' : state → Prop :=
  λ st, L st ∧ write_to_log st ≠ Fn_write_to_log_init.

Lemma steady_left_init : steady L' E.
Proof.
  split.
  - intros st [H _]. now apply (steady_no_answer L E).
  - intros st [H _]. now apply (steady_in_bounds L E).
  - intros e st [H Hp]. split; [now apply (steady_errno L E)|exact Hp].
  - intros l st [H Hp]. split; [now apply (steady_pending L E)|exact Hp].
Qed.

Lemma holds_write_log_fds i v : holds L E (write_log_fds i v).
Proof. apply holds_modify. intros. now apply on_fds. Qed.

Lemma holds_write_log_fds' i v : holds L' E (write_log_fds i v).
Proof.
  apply holds_modify. intros st [H Hp]. split; [now apply on_fds|exact Hp].
Qed.

Lemma holds_close' fd : holds L' E (sys_close fd).
Proof.
  apply (holds_sys_close L' E steady_left_init).
  - intros st [H Hp]. split; [now apply on_close|exact Hp].
  - intros l st [H Hp]. split; [now apply on_open_fds|exact Hp].
Qed.

Lemma outcome_init_body : outcome L init_body (λ _, L') E.
Proof.
  pose proof steady_left_init as st_L'.
  assert (Hopen : ∀ p flags, holds L E (sys_open p flags)).
  { intros. apply holds_sys_open; auto. }
  assert (Hread : ∀ i, 0 ≤ i < LOG_ID_MAX → holds L' E (read_log_fds i)).
  { intros. now apply holds_read_log_fds. }
  unfold init_body, log_open, log_close.
  apply (outcome_bind _ (λ _, L)); [apply Hopen|]. intros fd0.
  apply (outcome_bind _ (λ _, L)); [apply holds_write_log_fds|]. intros _.
  apply (outcome_bind _ (λ _, L)); [apply Hopen|]. intros fd1.
  apply (outcome_bind _ (λ _, L)); [apply holds_write_log_fds|]. intros _.
  apply (outcome_bind _ (λ _, L)); [apply Hopen|]. intros fd2.
  apply (outcome_bind _ (λ _, L)); [apply holds_write_log_fds|]. intros _.
  apply (outcome_bind _ (λ _, L)); [apply Hopen|]. intros fd3.
  apply (outcome_bind _ (λ _, L)); [apply holds_write_log_fds|]. intros _.
  apply (outcome_bind _ (λ _, L')).
  { intros st H. split; [now apply on_pointer|discriminate]. }
  intros _.
  apply holds_bind; [now apply Hread|]. intros fd_main.
  apply holds_bind; [now apply Hread|]. intros fd_radio.
  apply holds_bind; [now apply Hread|]. intros fd_events.
  apply holds_bind.
  { destruct (_ || _); [|apply holds_ret].
    repeat (apply holds_bind; [apply holds_close'|intros _]).
    repeat (apply holds_bind; [apply holds_write_log_fds'|intros _]).
    apply holds_modify. intros st [H _].
    split; [now apply on_pointer|discriminate]. }
  intros _.
  apply holds_bind; [now apply Hread|]. intros fd_system.
  destruct (fd_system <? 0); [|apply holds_ret].
  apply holds_bind; [now apply Hread|]. intros fd.
  apply holds_write_log_fds'.
Qed.

(** After the locked section the pointer is not [__write_to_log_init],
    whether the section initialised or found it done. *)
Lemma outcome_locked_section : outcome L init_locked_section (λ _, L') E.
Proof.
  unfold init_locked_section. apply outcome_get. intros st0.
  destruct (write_to_log st0) eqn:Hp.
  - eapply outcome_conseq; [apply outcome_init_body| |auto|auto].
    now intros st [_ H].
  - intros st [-> H]. split; [exact H|congruence].
  - intros st [-> H]. split; [exact H|congruence].
Qed.

(** [I] holds while the lock is free. *)
Variable I : state → Prop.
Hypothesis st_I : steady I E.
Hypothesis on_writev : ∀ fd vec st, I st → I (log_event (EvWritev fd vec) st).
Hypothesis on_lock : ∀ st, I st → L (log_event EvLock st).
Hypothesis on_unlock : ∀ st, L st → I (log_event EvUnlock st).

Lemma holds_write_to_log_init log_id vec :
  0 ≤ log_id ∨ out_of_bounds_stops I E →
  holds I E (__write_to_log_init log_id vec).
Proof.
  intros Hid. unfold __write_to_log_init, pthread_mutex_lock,
    pthread_mutex_unlock.
  apply (outcome_bind _ (λ _, L)).
  { intros st H. now apply on_lock. }
  intros _. apply (outcome_bind _ (λ _, L')); [apply outcome_locked_section|].
  intros _.
  apply (outcome_bind _
           (λ _ st, I st ∧ write_to_log st ≠ Fn_write_to_log_init)).
  { intros st [H Hp]. split; [now apply on_unlock|exact Hp]. }
  intros _. now apply outcome_tail_call.
Qed.

End LockedSection.


(** ** Calls return or block *)

Lemma sized_steady (E : halt → state → Prop) :
  (∀ st, registry_sized st → E NoAnswer st) → steady registry_sized E.
Proof. intros HE. split; auto. Qed.

Lemma sized_insert i v st :
  registry_sized st → registry_sized (set_log_fds (<[i:=v]> (log_fds st)) st).
Proof.
  unfold registry_sized. cbn [log_fds set_log_fds]. now rewrite length_insert.
Qed.

Lemma sized_run (E : halt → state → Prop) (cs : list api_call) :
  (∀ st, registry_sized st → E NoAnswer st) →
  Forall nonneg_channel cs ∨ out_of_bounds_stops registry_sized E →
  holds registry_sized E (run cs).
Proof.
  intros HE Hcs. pose proof (sized_steady E HE) as Hst.
  apply holds_run; auto.
  intros log_id vec Hid.
  apply (holds_write_to_log_init registry_sized E); auto using sized_insert.
Qed.

(** From the start of the process, calls that pass on no negative channel
    identifier never read the registry out of bounds and never make
    [__write_to_log_init] enter itself again: a call that does not come
    back is blocked in a system call that got no reply. *)
Theorem calls_return_or_block (script : list reply) (cs : list api_call)
    (h : halt) (st' : state) :
  Forall nonneg_channel cs →
  run cs (initial_state script) = Halt h st' →
  h = NoAnswer.
Proof.
  intros Hcs Hrun.
  pose proof (sized_run (λ h _, h = NoAnswer) cs (λ _ _, eq_refl)
                (or_introl Hcs) (initial_state script) eq_refl) as H.
  now rewrite Hrun in H.
Qed.

Lemma calls_return_or_block_witness :
  Forall nonneg_channel blocked_calls ∧
  run blocked_calls (initial_state [Failure 13; Success 3%N]) =
    Halt NoAnswer
      (state_of (run blocked_calls (initial_state [Failure 13; Success 3%N]))) ∧
  NoAnswer = NoAnswer.
Proof.
  assert (Hcs : Forall nonneg_channel blocked_calls).
  { repeat constructor. unfold nonneg_channel. lia. }
  assert (Hrun : run blocked_calls (initial_state [Failure 13; Success 3%N]) =
            Halt NoAnswer
              (state_of (run blocked_calls
                           (initial_state [Failure 13; Success 3%N]))))
    by (vm_compute; reflexivity).
  split; [exact Hcs|]. split; [exact Hrun|].
  exact (calls_return_or_block _ _ _ _ Hcs Hrun).
Defined.

(** ** The lock and the writes *)

Lemma unlocked_steady :
  steady unlocked (λ _ st, writes_unlocked (trace st) = true).
Proof.
  split; try (intros; assumption).
  - now intros st [H _].
  - now intros st (_ & _ & H).
Qed.

Lemma locked_steady :
  steady locked (λ _ st, writes_unlocked (trace st) = true).
Proof.
  split; try (intros; assumption).
  - now intros st [H _].
  - now intros st (_ & _ & H).
Qed.

Lemma unlocked_writev fd vec st :
  unlocked st → unlocked (log_event (EvWritev fd vec) st).
Proof.
  intros (H1 & H2 & H3). unfold unlocked. cbn. rewrite H1, H2. auto.
Qed.

Lemma unlocked_run (cs : list api_call) :
  holds unlocked (λ _ st, writes_unlocked (trace st) = true) (run cs).
Proof.
  assert (Hoob : out_of_bounds_stops unlocked
                   (λ _ st, writes_unlocked (trace st) = true))
    by now intros st [H _].
  apply holds_run; auto using unlocked_steady, unlocked_writev.
  intros log_id vec _.
  apply (holds_write_to_log_init locked _ locked_steady);
    auto using unlocked_steady, unlocked_writev.
  - intros i v st (H1 & H2 & H3). repeat split; auto.
    now apply sized_insert.
  - intros st (H1 & H2 & H3). repeat split; auto.
  - intros st (H1 & H2 & H3). repeat split; auto.
Qed.

(** No [writev] is ever made with [log_init_lock] held, and a sequence of
    calls that comes back leaves the lock free: writers hold the lock for
    the initialisation only. *)
Theorem writes_are_made_unlocked (script : list reply)
    (cs : list api_call) :
  writes_unlocked (trace (state_of (run cs (initial_state script)))) = true ∧
  (∀ rs st', run cs (initial_state script) = Ok rs st' →
             lock_held (trace st') = false).
Proof.
  pose proof (unlocked_run cs (initial_state script)) as H.
  assert (H0 : unlocked (initial_state script)) by (repeat split).
  specialize (H H0). split.
  - destruct (run cs _); [apply H|exact H].
  - intros rs st' Hrun. rewrite Hrun in H. apply H.
Qed.

Lemma writes_are_made_unlocked_witness :
  lock_held (trace (state_of (run C1_before (initial_state C1_script))))
  = false.
Proof.
  apply (proj2 (writes_are_made_unlocked C1_script C1_before)
           [9] (state_of (run C1_before (initial_state C1_script)))).
  vm_compute. reflexivity.
Defined.

(** ** After the initialisation no handle is opened or closed *)

Lemma frozen_steady st0 :
  registry_sized st0 → steady (frozen st0) (λ _, frozen st0).
Proof.
  intros Hlen. split; try (intros; assumption).
  intros st (_ & H & _). unfold registry_sized in *. now rewrite H.
Qed.

Lemma frozen_init st0 log_id vec :
  registry_sized st0 →
  write_to_log st0 ≠ Fn_write_to_log_init →
  holds (frozen st0) (λ _, frozen st0) (__write_to_log_init log_id vec).
Proof.
  intros Hlen Hp0. pose proof (frozen_steady st0 Hlen) as Hst.
  unfold __write_to_log_init, pthread_mutex_lock, pthread_mutex_unlock.
  apply holds_bind; [apply holds_modify; auto|]. intros _.
  apply holds_bind.
  { unfold init_locked_section. apply outcome_get. intros st1 st [-> H].
    pose proof H as (Hp & _).
    destruct (write_to_log st1); [congruence|exact H..]. }
  intros _. apply holds_bind; [apply holds_modify; auto|]. intros _.
  eapply outcome_conseq.
  - apply (outcome_tail_call (frozen st0) (λ _, frozen st0) Hst); auto.
    right. now intros st H.
  - intros st H. split; [exact H|]. destruct H as [H _]. congruence.
  - auto.
  - auto.
Qed.

Lemma frozen_run st0 cs :
  registry_sized st0 →
  write_to_log st0 ≠ Fn_write_to_log_init →
  holds (frozen st0) (λ _, frozen st0) (run cs).
Proof.
  intros Hlen Hp0. apply holds_run; auto using frozen_steady, frozen_init.
  right. now intros st H.
Qed.

(** Once a call has left the pointer different from
    [__write_to_log_init], no later call opens or closes a handle: the set
    of open handles and the [open]s and [close]s of the trace stay as that
    call left them. *)
Theorem no_open_or_close_after_init (script : list reply)
    (before after : list api_call) :
  let mid := state_of (run before (initial_state script)) in
  let final := state_of (run (before ++ after) (initial_state script)) in
  write_to_log mid ≠ Fn_write_to_log_init →
  open_fds final = open_fds mid ∧
  opens_and_closes (trace final) = opens_and_closes (trace mid).
Proof.
  intros mid final Hmid.
  assert (Hlen : registry_sized mid).
  { apply (holds_state_of registry_sized (λ _, registry_sized) registry_sized
             (run before) (initial_state script)); auto; [|reflexivity].
    apply sized_run; auto. right. now intros st H. }
  subst final. rewrite run_app. fold mid.
  destruct (run before (initial_state script)) as [rs st1|h st1] eqn:Hrun;
    [|split; reflexivity].
  change mid with st1 in *. cbn [state_of] in *.
  pose proof (frozen_run st1 after Hlen Hmid st1) as H.
  assert (H0 : frozen st1 st1) by (repeat split).
  specialize (H H0).
  destruct (run after st1); destruct H as (_ & _ & H1 & H2); auto.
Qed.

Lemma no_open_or_close_after_init_witness :
  open_fds (state_of (run (C1_before ++ C1_after) (initial_state C1_script)))
  = open_fds (state_of (run C1_before (initial_state C1_script))).
Proof.
  apply (no_open_or_close_after_init C1_script C1_before C1_after).
  vm_compute. discriminate.
Defined.


(** ** The first write *)

Lemma ok_of_value {A} (r : result A) (a : A) :
  value_of r = Some a → r = Ok a (state_of r).
Proof. destruct r; simpl; [intros [= ->]; reflexivity|discriminate]. Qed.

Lemma bind_ok {A B} (m : M A) (k : A → M B) (st st' : state) (a : A) :
  m st = Ok a st' → (m ≫= k) st = k a st'.
Proof. intros H. unfold mbind, M_bind. now rewrite H. Qed.

Lemma init_body_three_open (st : state) (m r e : N) (r4 : reply)
    (rest : list reply) :
  length (log_fds st) = 4%nat →
  pending st = Success m :: Success r :: Success e :: r4 :: rest →
  init_body st =
  Ok tt
    (mk_state Fn_write_to_log_kernel
       [ Z.of_N m; Z.of_N r; Z.of_N e;
         match r4 with Success s => Z.of_N s | Failure _ => Z.of_N m end ]
       (g_log_status st)
       (errno_after r4 (errno st))
       (match r4 with
        | Success s =>
            Z.of_N s :: Z.of_N e :: Z.of_N r :: Z.of_N m :: open_fds st
        | Failure _ => Z.of_N e :: Z.of_N r :: Z.of_N m :: open_fds st
        end)
       (init_opens ++ trace st)
       rest).
Proof.
  intros Hlen Hp. destruct st as [f fds g en ofds tr pend].
  cbn [log_fds pending g_log_status open_fds trace errno] in *. subst pend.
  destruct fds as [|a [|b [|c [|d [|]]]]]; try discriminate.
  destruct m, r, e, r4 as [[|s]|err]; vm_compute; reflexivity.
Qed.

(** When the main, radio and events devices open, the call that
    initialises goes on to make its own write in the live state: with the
    registry filled, the system entry being the handle of the system device
    or else that of the main device, the opened handles open, and the
    replies after the four [open]s still to come. *)
Theorem first_write_is_not_lost (st0 : state) (m r e : N) (r4 : reply)
    (rest : list reply) (log_id : Z) (vec : list iovec) :
  write_to_log st0 = Fn_write_to_log_init →
  length (log_fds st0) = 4%nat →
  pending st0 = Success m :: Success r :: Success e :: r4 :: rest →
  call_write_to_log log_id vec st0 =
    __write_to_log_kernel log_id vec (live_state m r e r4 rest st0).
Proof.
  intros Hf Hlen Hp.
  unfold call_write_to_log.
  rewrite (bind_ok get_state _ st0 st0 st0 eq_refl), Hf.
  unfold __write_to_log_init.
  rewrite (bind_ok pthread_mutex_lock _ st0 (log_event EvLock st0) tt eq_refl).
  assert (Hsec : init_locked_section (log_event EvLock st0) =
                 init_body (log_event EvLock st0)).
  { unfold init_locked_section.
    rewrite (bind_ok get_state _ _ _ _ eq_refl).
    change (write_to_log (log_event EvLock st0)) with (write_to_log st0).
    now rewrite Hf. }
  rewrite (bind_ok init_locked_section _ (log_event EvLock st0) _ tt
             (eq_trans Hsec
                (init_body_three_open (log_event EvLock st0) m r e r4 rest
                   Hlen Hp))).
  rewrite (bind_ok pthread_mutex_unlock _ _ _ tt eq_refl).
  unfold tail_call_write_to_log.
  rewrite (bind_ok get_state _ _ _ _ eq_refl).
  reflexivity.
Qed.

Lemma first_write_is_not_lost_witness :
  call_write_to_log LOG_ID_EVENTS [] first_write_state =
    __write_to_log_kernel LOG_ID_EVENTS []
      (live_state 3 4 5 (Success 6%N) [Failure EINTR; Success 17%N]
         first_write_state).
Proof.
  exact (first_write_is_not_lost first_write_state 3 4 5 (Success 6%N)
           [Failure EINTR; Success 17%N] LOG_ID_EVENTS []
           eq_refl eq_refl eq_refl).
Defined.


(** ** A failed initialisation is silent *)

Section Known.

Variable E : halt → state → Prop.

Lemma outcome_pure {A} (c : Prop) (P : state → Prop) (m : M A)
    (Q : A → state → Prop) :
  (c → outcome P m Q E) → outcome (λ st, c ∧ P st) m Q E.
Proof. intros Hm st [Hc H]. exact (Hm Hc st H). Qed.

Lemma known_open f l r p t path flags :
  outcome (known f l (r :: p) t) (sys_open path flags)
    (λ v st, v = returned r ∧ known f l p (EvOpen path flags :: t) st) E.
Proof.
  intros st (Hf & Hl & Hp & Ht).
  unfold sys_open, mbind, M_bind, modify, next_reply.
  cbn [pending log_event]. rewrite Hp.
  subst f l t. destruct r; (split; [reflexivity|]); repeat split.
Qed.

Lemma known_close f l p t fd :
  outcome (known f l p t) (sys_close fd)
    (λ _, known f l p (EvClose fd :: t)) E.
Proof.
  intros st (Hf & Hl & Hp & Ht).
  unfold sys_close, mbind, M_bind, modify, get_state.
  subst f l p t. destruct (bool_decide _); repeat split.
Qed.

Lemma known_store f l p t i v :
  outcome (known f l p t) (write_log_fds i v)
    (λ _, known f (<[Z.to_nat i:=v]> l) p t) E.
Proof.
  intros st (Hf & Hl & Hp & Ht). subst f l p t. repeat split.
Qed.

Lemma known_read f l p t i v :
  l !! Z.to_nat i = Some v → (i <? 0) = false →
  outcome (known f l p t) (read_log_fds i)
    (λ x st, x = v ∧ known f l p t st) E.
Proof.
  intros Hv Hi st H. pose proof H as (Hf & Hl & Hp & Ht).
  unfold read_log_fds. rewrite Hi, Hl, Hv. split; [reflexivity|exact H].
Qed.

Lemma known_pointer f f' l p t :
  outcome (known f l p t) (modify (set_write_to_log f'))
    (λ _, known f' l p t) E.
Proof. intros st (Hf & Hl & Hp & Ht). subst f l p t. repeat split. Qed.

Lemma known_event f l p t ev :
  outcome (known f l p t) (modify (log_event ev))
    (λ _, known f l p (ev :: t)) E.
Proof. intros st (Hf & Hl & Hp & Ht). subst f l p t. repeat split. Qed.

Lemma known_dispatch {B} f l p t (k : state → M B) (Q : B → state → Prop) :
  (∀ st0, write_to_log st0 = f → outcome (known f l p t) (k st0) Q E) →
  outcome (known f l p t) (get_state ≫= k) Q E.
Proof. intros Hk st H. exact (Hk st (proj1 H) st H). Qed.

End Known.

Ltac known_step rule :=
  eapply outcome_bind; [apply rule|]; cbv beta;
  let v := fresh "v" in intros v; try (apply outcome_pure; intros ->).

Ltac known_read_step :=
  eapply outcome_bind; [apply known_read; reflexivity|]; cbv beta;
  let v := fresh "v" in intros v; apply outcome_pure; intros ->.

Lemma failed_init_outcome (a b c d : Z) (r1 r2 r3 r4 : reply)
    (rest : list reply) (t : list event) (log_id : Z) (vec : list iovec) :
  is_failure r1 || is_failure r2 || is_failure r3 = true →
  outcome
    (known Fn_write_to_log_init [a; b; c; d] (r1 :: r2 :: r3 :: r4 :: rest) t)
    (call_write_to_log log_id vec)
    (λ v st, v = -1 ∧
       known Fn_write_to_log_null [-1; -1; -1; returned r4] rest
         (EvUnlock :: EvClose (returned r3) :: EvClose (returned r2)
          :: EvClose (returned r1) :: init_opens ++ EvLock :: t) st)
    (λ _ _, False).
Proof.
  intros Hfail. unfold call_write_to_log.
  apply known_dispatch. intros st0 ->.
  unfold __write_to_log_init, pthread_mutex_lock, pthread_mutex_unlock.
  known_step known_event.
  apply (outcome_bind _
           (λ _, known Fn_write_to_log_null [-1; -1; -1; returned r4] rest
                   (EvClose (returned r3) :: EvClose (returned r2)
                    :: EvClose (returned r1) :: init_opens ++ EvLock :: t))).
  { unfold init_locked_section. apply known_dispatch. intros st1 ->.
    unfold init_body, log_open, log_close.
    known_step known_open. known_step known_store.
    known_step known_open. known_step known_store.
    known_step known_open. known_step known_store.
    known_step known_open. known_step known_store.
    known_step known_pointer.
    known_read_step. known_read_step. known_read_step.
    assert (Htest : (returned r1 <? 0) || (returned r2 <? 0)
                    || (returned r3 <? 0) = true).
    { destruct r1, r2, r3; cbn [returned is_failure] in *;
        rewrite ?of_N_not_neg; try reflexivity; discriminate. }
    rewrite Htest.
    eapply outcome_bind.
    { known_step known_close. known_step known_close.
      known_step known_close. known_step known_store.
      known_step known_store. known_step known_store.
      apply known_pointer. }
    cbv beta. intros _. known_read_step.
    destruct r4 as [s|e4]; cbn [returned].
    - rewrite of_N_not_neg. intros st H. exact H.
    - change (-1 <? 0) with true. cbv iota. known_read_step.
      apply known_store. }
  cbv beta. intros _. known_step known_event.
  unfold tail_call_write_to_log. apply known_dispatch. intros st2 ->.
  intros st H. split; [reflexivity|].
  destruct r4; exact H.
Qed.

(** When the main, the radio or the events device fails to open, the call
    that initialises returns -1 having made no [writev]: it has closed
    what the three [open]s returned, in the order main, radio, events, and
    nothing else; the pointer is [__write_to_log_null] and the registry
    holds -1 for the three and what the [open] of the system device
    returned for the fourth.  From then on every write, on any channel,
    returns -1 and leaves the state as it is. *)
Theorem failed_init_is_silent (st0 : state) (r1 r2 r3 r4 : reply)
    (rest : list reply) (log_id : Z) (vec : list iovec)
    (calls : list api_call) (log_id' : Z) (vec' : list iovec) :
  write_to_log st0 = Fn_write_to_log_init →
  length (log_fds st0) = 4%nat →
  pending st0 = r1 :: r2 :: r3 :: r4 :: rest →
  is_failure r1 || is_failure r2 || is_failure r3 = true →
  let st1 := state_of (call_write_to_log log_id vec st0) in
  let st2 := state_of (run calls st1) in
  call_write_to_log log_id vec st0 = Ok (-1) st1 ∧
  write_to_log st1 = Fn_write_to_log_null ∧
  log_fds st1 = [-1; -1; -1; returned r4] ∧
  pending st1 = rest ∧
  trace st1 =
    EvUnlock :: EvClose (returned r3) :: EvClose (returned r2)
    :: EvClose (returned r1) :: init_opens ++ EvLock :: trace st0 ∧
  call_write_to_log log_id' vec' st2 = Ok (-1) st2.
Proof.
  intros Hf Hlen Hp Hfail st1 st2.
  destruct (log_fds st0) as [|a [|b [|c [|d [|]]]]] eqn:Hfds;
    try discriminate.
  pose proof (failed_init_outcome a b c d r1 r2 r3 r4 rest (trace st0)
                log_id vec Hfail st0
                (conj Hf (conj Hfds (conj Hp eq_refl)))) as H.
  subst st1 st2.
  destruct (call_write_to_log log_id vec st0) as [v st1|h st1]; [|contradiction].
  destruct H as (-> & Hnull & Hl & Hrest & Ht). cbn [state_of].
  repeat split; auto.
  pose proof (settled_run Fn_write_to_log_null (log_fds st1) calls
                ltac:(discriminate) st1 (conj Hnull eq_refl)) as H2.
  assert (Hnull2 : write_to_log (state_of (run calls st1))
                   = Fn_write_to_log_null).
  { destruct (run calls st1); apply H2. }
  unfold call_write_to_log, mbind, M_bind, get_state. now rewrite Hnull2.
Qed.

Lemma failed_init_is_silent_witness :
  call_write_to_log LOG_ID_MAIN [] (initial_state C2_script) =
    Ok (-1) (state_of (call_write_to_log LOG_ID_MAIN []
                         (initial_state C2_script))) ∧
  log_fds (state_of (call_write_to_log LOG_ID_MAIN []
                       (initial_state C2_script))) = [-1; -1; -1; 6].
Proof.
  pose proof (failed_init_is_silent (initial_state C2_script)
                (Failure 2) (Success 4%N) (Success 5%N) (Success 6%N) []
                LOG_ID_MAIN [] [] LOG_ID_MAIN []
                eq_refl eq_refl eq_refl eq_refl) as H.
  split; [exact (proj1 H)|exact (proj1 (proj2 (proj2 H)))].
Defined.


(** ** The device probe *)

(** The first call of [__android_log_dev_available] makes one [access] on
    the main device for writing and returns 1 exactly when it succeeds.
    It leaves the pointer, the registry and the open handles alone: the
    probe does not initialise the dispatcher. *)
Theorem dev_available_probes_once (st : state) (r : reply)
    (rest : list reply) :
  g_log_status st = kLogUninitialized →
  pending st = r :: rest →
  __android_log_dev_available st =
    Ok (if is_failure r then 0 else 1)
       (mk_state (write_to_log st) (log_fds st)
          (if is_failure r then kLogNotAvailable else kLogAvailable)
          (errno_after r (errno st)) (open_fds st)
          (EvAccess ("/dev/" +:+ LOGGER_LOG_MAIN) W_OK :: trace st) rest).
Proof.
  intros Hg Hp.
  unfold __android_log_dev_available, mbind, M_bind, get_state.
  rewrite Hg. unfold sys_access, mbind, M_bind, modify, next_reply.
  cbn [pending log_event]. rewrite Hp. destruct r; reflexivity.
Qed.

Lemma dev_available_probes_once_witness :
  __android_log_dev_available (initial_state [Failure 13; Success 3%N]) =
    Ok 0
       (mk_state Fn_write_to_log_init [-1; -1; -1; -1] kLogNotAvailable 13 []
          [EvAccess "/dev/log/main" 2] [Success 3%N]).
Proof.
  exact (dev_available_probes_once (initial_state [Failure 13; Success 3%N])
           (Failure 13) [Success 3%N] eq_refl eq_refl).
Defined.

(** ** Bytes of integers *)

Lemma le_value_int_bytes (v : Z) :
  le_value (int_bytes v) = v mod 4294967296.
Proof.
  unfold int_bytes. cbn [le_value]. rewrite !byte_val_byte_of.
  rewrite !Z.shiftr_div_pow2 by lia.
  change (2 ^ 8) with 256. change (2 ^ 16) with 65536.
  change (2 ^ 24) with 16777216.
  Z.to_euclidean_division_equations. lia.
Qed.

Lemma as_int32_int_bytes (v : Z) :
  -2147483648 ≤ v < 2147483648 → as_int32 (le_value (int_bytes v)) = v.
Proof.
  intros Hv. rewrite le_value_int_bytes. unfold as_int32.
  destruct (v mod 4294967296 <? 2147483648) eqn:Hlt;
    [apply Z.ltb_lt in Hlt|apply Z.ltb_ge in Hlt];
    Z.to_euclidean_division_equations; lia.
Qed.

(** A write to the events channel in the live state that is not
    interrupted. *)
Lemma events_write_live (st : state) (fd : Z) (vec : list iovec) (r : reply)
    (rest : list reply) :
  write_to_log st = Fn_write_to_log_kernel →
  log_fds st !! Z.to_nat LOG_ID_EVENTS = Some fd →
  pending st = r :: rest →
  r ≠ Failure EINTR →
  call_write_to_log LOG_ID_EVENTS vec st =
    Ok (to_int (returned r)) (after_writes fd vec 0 r rest st).
Proof.
  intros Hk Hfd Hp Hr.
  apply (kernel_write_retries st LOG_ID_EVENTS fd vec 0 r rest); auto.
  unfold LOG_ID_EVENTS, LOG_ID_MAX. lia.
Qed.

(** The first segment that [__android_log_bwrite] and
    [__android_log_btwrite] send in the live state is the four bytes of the
    tag, lowest byte first: read back as [int32_t] they give the tag the
    caller passed.  The first segment that the text writers hand to
    [write_to_log] is one byte, the priority modulo 256. *)
Theorem int_bytes_round_trip (st : state) (fd tag len prio bufID : Z)
    (type : ascii) (payload : string) (r : reply) (rest : list reply)
    (t : option string) (msg : string) :
  write_to_log st = Fn_write_to_log_kernel →
  log_fds st !! Z.to_nat LOG_ID_EVENTS = Some fd →
  pending st = r :: rest →
  r ≠ Failure EINTR →
  -2147483648 ≤ tag < 2147483648 →
  option_map (λ bytes, (String.length bytes, as_int32 (le_value bytes)))
    (first_segment
       (trace (state_of (__android_log_bwrite tag payload len st)))) =
    Some (4%nat, tag) ∧
  option_map (λ bytes, (String.length bytes, as_int32 (le_value bytes)))
    (first_segment
       (trace (state_of (__android_log_btwrite tag type payload len st)))) =
    Some (4%nat, tag) ∧
  option_map (λ seg, (String.length (iov_bytes seg), le_value (iov_bytes seg)))
    (head (snd (android_log_write_args prio t msg))) =
    Some (1%nat, prio mod 256) ∧
  option_map (λ seg, (String.length (iov_bytes seg), le_value (iov_bytes seg)))
    (head (snd (android_log_buf_write_args bufID prio t msg))) =
    Some (1%nat, prio mod 256).
Proof.
  intros Hk Hfd Hp Hr Htag.
  assert (Hprio : le_value (String (byte_of prio) EmptyString) = prio mod 256).
  { cbn [le_value]. rewrite byte_val_byte_of. lia. }
  split; [|split; [|split]].
  - unfold __android_log_bwrite.
    rewrite (events_write_live st fd _ r rest Hk Hfd Hp Hr).
    cbn [state_of after_writes trace repeat app first_segment option_map].
    change (iov_bytes (mk_iovec (int_bytes tag) 4)) with (int_bytes tag).
    rewrite (as_int32_int_bytes tag Htag). reflexivity.
  - unfold __android_log_btwrite.
    rewrite (events_write_live st fd _ r rest Hk Hfd Hp Hr).
    cbn [state_of after_writes trace repeat app first_segment option_map].
    change (iov_bytes (mk_iovec (int_bytes tag) 4)) with (int_bytes tag).
    rewrite (as_int32_int_bytes tag Htag). reflexivity.
  - unfold android_log_write_args.
    destruct (radio_tag_of_write (not_null t));
      cbn [snd text_vec head option_map]; rewrite iov_bytes_prio, Hprio;
      reflexivity.
  - unfold android_log_buf_write_args.
    destruct (negb (bufID =? LOG_ID_RADIO) &&
              radio_tag_of_buf_write (not_null t));
      cbn [snd text_vec head option_map]; rewrite iov_bytes_prio, Hprio;
      reflexivity.
Qed.

Lemma int_bytes_round_trip_witness :
  option_map (λ bytes, (String.length bytes, as_int32 (le_value bytes)))
    (first_segment
       (trace (state_of (__android_log_bwrite (-2) "payload" 7
                           events_state)))) =
    Some (4%nat, -2).
Proof.
  refine (proj1 (int_bytes_round_trip events_state 5 (-2) 7 4 0 "a"
                   "payload" (Success 11%N) [] None "" eq_refl eq_refl
                   eq_refl _ _)).
  - discriminate.
  - lia.
Defined.

(** ** The formatted writers *)

Lemma c_str_c_string (s : string) : c_string s = true → c_str s = s.
Proof.
  induction s as [|c s IH]; simpl; [reflexivity|].
  destruct (Ascii.eqb c "000"); simpl; [discriminate|].
  intros H. now rewrite IH.
Qed.

Lemma c_string_c_str (s : string) : c_string (c_str s) = true.
Proof.
  induction s as [|c s IH]; simpl; [reflexivity|].
  destruct (Ascii.eqb c "000") eqn:Hc; simpl; [reflexivity|].
  now rewrite Hc.
Qed.

Lemma length_c_str (s : string) :
  (String.length (c_str s) ≤ String.length s)%nat.
Proof.
  induction s as [|c s IH]; simpl; [lia|].
  destruct (Ascii.eqb c "000"); simpl; lia.
Qed.

Lemma c_string_substring_0 (n : nat) (s : string) :
  c_string s = true → c_string (substring 0 n s) = true.
Proof.
  revert s. induction n as [|n IH]; intros [|c s]; simpl; try reflexivity.
  intros H. apply andb_prop in H as [Hc Hs]. rewrite Hc. now apply IH.
Qed.

Lemma c_str_cut_at_nul (n : nat) (a b : string) :
  c_string a = true → (String.length a ≤ n)%nat →
  c_str (substring 0 n (a +:+ NUL +:+ b)) = a.
Proof.
  revert n. induction a as [|c a IH]; intros n Ha Hn.
  - destruct n; reflexivity.
  - simpl in Ha, Hn. apply andb_prop in Ha as [Hc Ha].
    destruct n as [|n]; [lia|]. simpl.
    apply negb_true_iff in Hc. rewrite Hc. rewrite IH by (auto; lia).
    reflexivity.
Qed.

(** [__android_log_vprint] and [__android_log_buf_print] write the C string
    that the buffer holds after the format was expanded into it: the first
    1023 bytes of the expansion, up to their first 0 byte when there is
    one.  The call is the text write of that message, whose segment with
    its terminator never exceeds the 1024 bytes of the buffer; an expansion
    of at most 1023 bytes without a 0 byte is written whole, and one that
    holds a 0 byte within its first 1024 bytes is written up to that
    byte. *)
Theorem formatted_message_is_cut (va_list : Type)
    (expand : string → va_list → string) (bufID prio : Z)
    (tag : option string) (fmt : string) (ap : va_list) :
  let msg := c_str (substring 0 1023 (expand fmt ap)) in
  __android_log_vprint va_list expand prio tag fmt ap =
    __android_log_write prio tag msg ∧
  __android_log_buf_print va_list expand bufID prio tag fmt ap =
    __android_log_buf_write bufID prio tag msg ∧
  nth_error (snd (android_log_write_args prio tag msg)) 2 =
    Some (mk_iovec (msg +:+ NUL) (strlen msg + 1)) ∧
  nth_error (snd (android_log_buf_write_args bufID prio tag msg)) 2 =
    Some (mk_iovec (msg +:+ NUL) (strlen msg + 1)) ∧
  c_string msg = true ∧
  strlen msg + 1 ≤ 1024 ∧
  (c_string (expand fmt ap) = true →
   msg = substring 0 1023 (expand fmt ap)) ∧
  ((String.length (expand fmt ap) ≤ 1023)%nat →
   c_string (expand fmt ap) = true → msg = expand fmt ap) ∧
  (∀ a b, expand fmt ap = a +:+ NUL +:+ b → c_string a = true →
          (String.length a ≤ 1023)%nat → msg = a).
Proof.
  intros msg. split; [reflexivity|]. split; [reflexivity|].
  split; [|split; [|split; [|split; [|split; [|split]]]]].
  - unfold android_log_write_args.
    destruct (radio_tag_of_write (not_null tag)); reflexivity.
  - unfold android_log_buf_write_args.
    destruct (negb (bufID =? LOG_ID_RADIO) &&
              radio_tag_of_buf_write (not_null tag)); reflexivity.
  - apply c_string_c_str.
  - unfold strlen. subst msg.
    pose proof (length_c_str (substring 0 1023 (expand fmt ap))) as H.
    rewrite length_substring_0 in H.
    pose proof (Nat.le_min_l 1023 (String.length (expand fmt ap))). lia.
  - intros H. subst msg. apply c_str_c_string.
    now apply c_string_substring_0.
  - intros Hlen H. subst msg. rewrite substring_0_all by exact Hlen.
    now apply c_str_c_string.
  - intros a b Hab Ha Hlen. subst msg. rewrite Hab.
    now apply c_str_cut_at_nul.
Qed.

Lemma formatted_message_is_cut_witness :
  c_str (substring 0 1023
           ((λ f (_ : unit), f) ("a" +:+ NUL +:+ "b") tt)) = "a".
Proof.
  apply (proj2 (proj2 (proj2 (proj2 (proj2 (proj2 (proj2 (proj2
           (formatted_message_is_cut unit (λ f _, f) 0 4 None
              ("a" +:+ NUL +:+ "b") tt)))))))) "a" "b").
  - reflexivity.
  - reflexivity.
  - simpl. lia.
Defined.

(** ** Event records *)

(** In the live state the two event writers write on the handle of the
    events channel, whatever else is open: one [writev] when it is not
    interrupted, with the four bytes of the tag, for
    [__android_log_btwrite] the type byte, and the first [len] bytes of the
    payload; they return what the [writev] returned, converted from
    [ssize_t] to [int]: the same number whenever it is at most [INT_MAX]. *)
Theorem event_records_go_to_events (st : state) (fd tag len : Z)
    (type : ascii) (payload : string) (r : reply) (rest : list reply) :
  write_to_log st = Fn_write_to_log_kernel →
  log_fds st !! Z.to_nat LOG_ID_EVENTS = Some fd →
  pending st = r :: rest →
  r ≠ Failure EINTR →
  __android_log_bwrite tag payload len st =
    Ok (to_int (returned r))
       (after_writes fd [mk_iovec (int_bytes tag) 4; mk_iovec payload len]
          0 r rest st) ∧
  __android_log_btwrite tag type payload len st =
    Ok (to_int (returned r))
       (after_writes fd
          [mk_iovec (int_bytes tag) 4; mk_iovec (String type EmptyString) 1;
           mk_iovec payload len] 0 r rest st) ∧
  (returned r ≤ 2147483647 → to_int (returned r) = returned r) ∧
  map iov_bytes
    [mk_iovec (int_bytes tag) 4; mk_iovec (String type EmptyString) 1;
     mk_iovec payload len] =
    [int_bytes tag; String type EmptyString;
     substring 0 (Z.to_nat len) payload].
Proof.
  intros Hk Hfd Hp Hr.
  split; [apply events_write_live; assumption|].
  split; [apply events_write_live; assumption|].
  split; [|reflexivity].
  intros Hmax. apply to_int_fits. pose proof (returned_at_least r). lia.
Qed.

Lemma event_records_go_to_events_witness :
  __android_log_bwrite 2722 "payload" 7 events_state =
    Ok 11 (after_writes 5 [mk_iovec (int_bytes 2722) 4; mk_iovec "payload" 7]
             0 (Success 11%N) [] events_state).
Proof.
  exact (proj1 (event_records_go_to_events events_state 5 2722 7 "a"
                  "payload" (Success 11%N) [] eq_refl eq_refl eq_refl
                  ltac:(discriminate))).
Defined.


(** ** Loggability *)

Lemma substring_0_append (x s : string) (n : nat) :
  substring 0 (String.length x + n) (x +:+ s) = x +:+ substring 0 n s.
Proof. induction x as [|c x IH]; simpl; [reflexivity|now rewrite IH]. Qed.

Lemma substring_0_twice (n m : nat) (s : string) :
  substring 0 n (substring 0 m s) = substring 0 (Nat.min n m) s.
Proof.
  revert m s. induction n as [|n IH]; intros [|m] [|c s]; simpl;
    try reflexivity.
  now rewrite IH.
Qed.

Section LoggableFacts.

Variable PROP_NAME_MAX : nat.
Variables VERBOSE DEBUG INFO WARN ERROR SILENT : Z.


(** A message that may be logged may be logged at every higher priority.
    Without any property set the messages that may be logged are those
    from [ANDROID_LOG_INFO] on. *)
Theorem loggable_is_monotone (props : gmap string string) (p q : Z)
    (tag : option string) :
  (p ≤ q →
   __android_log_loggable PROP_NAME_MAX VERBOSE DEBUG INFO WARN ERROR
     SILENT props p tag = 1 →
   __android_log_loggable PROP_NAME_MAX VERBOSE DEBUG INFO WARN ERROR
     SILENT props q tag = 1) ∧
  __android_log_loggable PROP_NAME_MAX VERBOSE DEBUG INFO WARN ERROR
    SILENT ∅ q tag =
    (if q >=? INFO then 1 else 0).
Proof.
  unfold __android_log_loggable. split.
  - intros Hpq Hp. destruct (p >=? _) eqn:H1; [|discriminate].
    destruct (q >=? _) eqn:H2; [reflexivity|]. lia.
  - assert (Hn : loggable_nprio PROP_NAME_MAX VERBOSE DEBUG INFO WARN ERROR SILENT
      ∅ tag = INFO); [|now rewrite Hn].
    unfold loggable_nprio, __system_property_get.
    destruct tag; rewrite ?lookup_empty; reflexivity.
Qed.

Lemma nprio_of_results_other (c : ascii) (value : string) :
  c ≠ "E"%char → c ≠ "W"%char → c ≠ "I"%char → c ≠ "D"%char →
  c ≠ "V"%char → c ≠ "S"%char →
  nprio_of_results VERBOSE DEBUG INFO WARN ERROR SILENT (String c value) =
    INFO.
Proof.
  intros HE HW HI HD HV HS. unfold nprio_of_results, prio_fallback.
  destruct c as [[] [] [] [] [] [] [] []]; try reflexivity; congruence.
Qed.

Lemma nprio_of_tag_property (props : gmap string string) (tag : string)
    (c : ascii) (value : string) :
  props !! keybuf_of_tag PROP_NAME_MAX tag = Some (String c value) →
  loggable_nprio PROP_NAME_MAX VERBOSE DEBUG INFO WARN ERROR SILENT
      props (Some tag) =
    nprio_of_results VERBOSE DEBUG INFO WARN ERROR SILENT (String c value).
Proof.
  intros Hget. unfold loggable_nprio, __system_property_get. rewrite Hget.
  unfold strlen. cbn [String.length].
  destruct (Z.of_nat (S (String.length value)) =? 0) eqn:Hz;
    [apply Z.eqb_eq in Hz; lia|reflexivity].
Qed.

Lemma nprio_of_default (props : gmap string string) (tag : string) :
  props !! keybuf_of_tag PROP_NAME_MAX tag = None ∨
  props !! keybuf_of_tag PROP_NAME_MAX tag = Some EmptyString →
  loggable_nprio PROP_NAME_MAX VERBOSE DEBUG INFO WARN ERROR SILENT
      props (Some tag) =
    match props !! LOGGING_DEFAULT with
    | Some (String c value) =>
        nprio_of_results VERBOSE DEBUG INFO WARN ERROR SILENT (String c value)
    | _ => INFO
    end ∧
  loggable_nprio PROP_NAME_MAX VERBOSE DEBUG INFO WARN ERROR SILENT
      props None =
    loggable_nprio PROP_NAME_MAX VERBOSE DEBUG INFO WARN ERROR SILENT
      props (Some tag).
Proof.
  intros Hget. unfold loggable_nprio, __system_property_get.
  destruct Hget as [-> | ->]; cbn [strlen String.length Z.of_nat Z.eqb];
    (destruct (props !! LOGGING_DEFAULT) as [[|c value]|];
       [split; reflexivity| |split; reflexivity]);
    unfold strlen; cbn [String.length];
    (destruct (Z.of_nat (S (String.length value)) =? 0) eqn:Hz;
       [apply Z.eqb_eq in Hz; lia|split; reflexivity]).
Qed.

(** A property of the tag that is set to a value that is not empty decides
    alone, by its first letter, whatever "log.tag.DEFAULT" holds: E gives
    the threshold [ANDROID_LOG_ERROR], W [ANDROID_LOG_WARN], I
    [ANDROID_LOG_INFO], D [ANDROID_LOG_DEBUG], V [ANDROID_LOG_VERBOSE], S
    [ANDROID_LOG_SILENT], and any other letter the fallback
    [ANDROID_LOG_INFO]. *)
Theorem tag_property_decides (props : gmap string string) (tag : string)
    (value : string) :
  let nprio :=
    loggable_nprio PROP_NAME_MAX VERBOSE DEBUG INFO WARN ERROR SILENT
      props (Some tag) in
  let starts_with (c : ascii) :=
    props !! keybuf_of_tag PROP_NAME_MAX tag = Some (String c value) in
  (starts_with "E"%char → nprio = ERROR) ∧
  (starts_with "W"%char → nprio = WARN) ∧
  (starts_with "I"%char → nprio = INFO) ∧
  (starts_with "D"%char → nprio = DEBUG) ∧
  (starts_with "V"%char → nprio = VERBOSE) ∧
  (starts_with "S"%char → nprio = SILENT) ∧
  (∀ c, c ≠ "E"%char → c ≠ "W"%char → c ≠ "I"%char → c ≠ "D"%char →
        c ≠ "V"%char → c ≠ "S"%char → starts_with c → nprio = INFO) ∧
  (∀ c prio, starts_with c →
     __android_log_loggable PROP_NAME_MAX VERBOSE DEBUG INFO WARN ERROR
       SILENT props prio (Some tag) =
     if prio >=? nprio then 1 else 0).
Proof.
  intros nprio starts_with. subst nprio starts_with. cbv beta.
  repeat split;
    try (intros H; rewrite (nprio_of_tag_property props tag _ value H);
         reflexivity).
  intros c HE HW HI HD HV HS H.
  rewrite (nprio_of_tag_property props tag c value H).
  now apply nprio_of_results_other.
Qed.

(** A tag without a property, or with an empty one, is judged by
    "log.tag.DEFAULT", as a null tag is: the first letter of its value
    gives the threshold as it does for the property of a tag, and without
    the property, or with an empty one, the threshold is the fallback
    [ANDROID_LOG_INFO]. *)
Theorem default_property_decides (props : gmap string string)
    (tag : string) (value : string) :
  props !! keybuf_of_tag PROP_NAME_MAX tag = None ∨
  props !! keybuf_of_tag PROP_NAME_MAX tag = Some EmptyString →
  let nprio :=
    loggable_nprio PROP_NAME_MAX VERBOSE DEBUG INFO WARN ERROR SILENT
      props (Some tag) in
  let default_is (v : option string) := props !! LOGGING_DEFAULT = v in
  (default_is None → nprio = INFO) ∧
  (default_is (Some EmptyString) → nprio = INFO) ∧
  (default_is (Some (String "E" value)) → nprio = ERROR) ∧
  (default_is (Some (String "W" value)) → nprio = WARN) ∧
  (default_is (Some (String "I" value)) → nprio = INFO) ∧
  (default_is (Some (String "D" value)) → nprio = DEBUG) ∧
  (default_is (Some (String "V" value)) → nprio = VERBOSE) ∧
  (default_is (Some (String "S" value)) → nprio = SILENT) ∧
  (∀ c, c ≠ "E"%char → c ≠ "W"%char → c ≠ "I"%char → c ≠ "D"%char →
        c ≠ "V"%char → c ≠ "S"%char →
        default_is (Some (String c value)) → nprio = INFO) ∧
  loggable_nprio PROP_NAME_MAX VERBOSE DEBUG INFO WARN ERROR SILENT
    props None = nprio ∧
  (∀ prio,
     __android_log_loggable PROP_NAME_MAX VERBOSE DEBUG INFO WARN ERROR
       SILENT props prio (Some tag) =
     __android_log_loggable PROP_NAME_MAX VERBOSE DEBUG INFO WARN ERROR
       SILENT props prio None).
Proof.
  intros Hget nprio default_is. subst nprio default_is. cbv beta.
  destruct (nprio_of_default props tag Hget) as [Hn Hnone].
  split; [intros H; rewrite Hn, H; reflexivity|].
  split; [intros H; rewrite Hn, H; reflexivity|].
  do 6 (split; [intros H; rewrite Hn, H; reflexivity|]).
  split; [|split].
  - intros c HE HW HI HD HV HS H. rewrite Hn, H.
    now apply nprio_of_results_other.
  - exact Hnone.
  - intros prio. unfold __android_log_loggable. now rewrite Hnone.
Qed.

(** The name looked up holds at most [PROP_NAME_MAX - 1] bytes, so only
    the first [PROP_NAME_MAX - 9] bytes of a tag count: two tags that agree
    on them are judged alike. *)
Theorem long_tags_share_a_property (props : gmap string string)
    (tag1 tag2 : string) (prio : Z) :
  (9 ≤ PROP_NAME_MAX)%nat →
  substring 0 (PROP_NAME_MAX - 9) tag1 = substring 0 (PROP_NAME_MAX - 9) tag2 →
  keybuf_of_tag PROP_NAME_MAX tag1 =
    LOGGING_PREFIX +:+ substring 0 (PROP_NAME_MAX - 9) tag1 ∧
  (String.length (keybuf_of_tag PROP_NAME_MAX tag1) ≤ PROP_NAME_MAX - 1)%nat ∧
  keybuf_of_tag PROP_NAME_MAX tag1 = keybuf_of_tag PROP_NAME_MAX tag2 ∧
  __android_log_loggable PROP_NAME_MAX VERBOSE DEBUG INFO WARN ERROR
    SILENT props prio (Some tag1) =
  __android_log_loggable PROP_NAME_MAX VERBOSE DEBUG INFO WARN ERROR
    SILENT props prio (Some tag2).
Proof.
  intros Hmax Hsame.
  assert (Hkey : ∀ t, keybuf_of_tag PROP_NAME_MAX t =
                      LOGGING_PREFIX +:+ substring 0 (PROP_NAME_MAX - 9) t).
  { intros t. unfold keybuf_of_tag.
    replace (PROP_NAME_MAX - 1)%nat
      with (String.length LOGGING_PREFIX + (PROP_NAME_MAX - 9))%nat
      by (simpl; lia).
    rewrite substring_0_append, substring_0_twice. do 2 f_equal.
    simpl. lia. }
  assert (Heq : keybuf_of_tag PROP_NAME_MAX tag1 =
                keybuf_of_tag PROP_NAME_MAX tag2)
    by now rewrite !Hkey, Hsame.
  split; [apply Hkey|]. split; [|split; [exact Heq|]].
  - rewrite Hkey, length_append, length_substring_0. simpl. lia.
  - unfold __android_log_loggable, loggable_nprio. now rewrite Heq.
Qed.

End LoggableFacts.

Lemma loggable_is_monotone_witness :
  __android_log_loggable 32 2 3 4 5 6 8 {[ "log.tag.Net" := "W" ]} 6
    (Some "Net") = 1.
Proof.
  apply (proj1 (loggable_is_monotone 32 2 3 4 5 6 8
                  {[ "log.tag.Net" := "W" ]} 5 6 (Some "Net"))).
  - lia.
  - vm_compute. reflexivity.
Defined.

Lemma tag_property_decides_witness :
  loggable_nprio 32 2 3 4 5 6 8
    {[ "log.tag.Net" := "WARN"; "log.tag.DEFAULT" := "V" ]} (Some "Net") = 5.
Proof.
  apply (proj1 (proj2 (tag_property_decides 32 2 3 4 5 6 8
                         {[ "log.tag.Net" := "WARN";
                            "log.tag.DEFAULT" := "V" ]} "Net" "ARN"))).
  vm_compute. reflexivity.
Defined.

Lemma default_property_decides_witness :
  loggable_nprio 32 2 3 4 5 6 8 {[ "log.tag.DEFAULT" := "E" ]} (Some "Net")
  = 6.
Proof.
  assert (Hnet : ({[ "log.tag.DEFAULT" := "E" ]} : gmap string string)
                   !! keybuf_of_tag 32 "Net" = None ∨
                 ({[ "log.tag.DEFAULT" := "E" ]} : gmap string string)
                   !! keybuf_of_tag 32 "Net" = Some EmptyString).
  { left. apply lookup_singleton_ne. discriminate. }
  apply (proj1 (proj2 (proj2
           (default_property_decides 32 2 3 4 5 6 8
              {[ "log.tag.DEFAULT" := "E" ]} "Net" "" Hnet)))).
  apply lookup_singleton_eq.
Defined.

Lemma long_tags_share_a_property_witness :
  keybuf_of_tag 32 "TelephonyConnectionServiceImpl" =
    keybuf_of_tag 32 "TelephonyConnectionServiceStub".
Proof.
  apply (long_tags_share_a_property 32 2 3 4 5 6 8 ∅
           "TelephonyConnectionServiceImpl" "TelephonyConnectionServiceStub"
           4).
  - lia.
  - reflexivity.
Defined.

